(** * Pipe-delimited corpus converter: scripts/transliterate_csv

    A shallow embedding of the two command-line scripts that add a
    [tiberian] column to a pipe-delimited corpus:

    - [src/scripts/transliterate_csv.ts], the plain script (module [Ts]);
    - [src/unnamed/part_000], its sibling with [--debug] and
      [--skip-errors], a line counter and an operator prompt (module [Mjs]).

    JavaScript strings are sequences of UTF-16 code units, modelled as
    [list N].  The transliteration library is an external collaborator and
    enters every definition as a section variable. *)

From Stdlib Require Import List NArith ZArith Bool Lia String Ascii.
From Stdlib Require DecimalString.
Import ListNotations.

Local Open Scope N_scope.

(** ** Strings *)

Definition jsstring := list N.

(** An ASCII literal of the source, as code units. *)
Definition lit (s : string) : jsstring :=
  map N_of_ascii (list_ascii_of_string s).

Definition PIPE : N := 0x7C.
Definition QUOTE : N := 0x22.
Definition CR : N := 0x0D.
Definition LF : N := 0x0A.
Definition BOM : N := 0xFEFF.

Definition jsstring_eqb (a b : jsstring) : bool :=
  if list_eq_dec N.eq_dec a b then true else false.

(** Truthiness of a string: only the empty string is falsy. *)
Definition truthy (s : jsstring) : bool :=
  match s with [] => false | _ :: _ => true end.

(** [s.includes(d)] for a one-unit [d]. *)
Definition includes (d : N) (s : jsstring) : bool := existsb (N.eqb d) s.

(** [s.split(d)] for a one-unit separator [d]: always at least one piece. *)
Fixpoint split (d : N) (s : jsstring) : list jsstring :=
  match s with
  | [] => [[]]
  | c :: s' =>
      if c =? d then [] :: split d s'
      else match split d s' with
           | p :: ps => (c :: p) :: ps
           | [] => [[c]]
           end
  end.

(** [cells.join(d)]. *)
Fixpoint join (d : N) (cells : list jsstring) : jsstring :=
  match cells with
  | [] => []
  | [c] => c
  | c :: cs => c ++ d :: join d cs
  end.

(** [line.replace(/\r?$/, empty)]: the only place the pattern can match is the
    end of the string, where it takes one carriage return if there is one. *)
Fixpoint dropTrailingCR (s : jsstring) : jsstring :=
  match s with
  | [] => []
  | [c] => if c =? CR then [] else [c]
  | c :: s' => c :: dropTrailingCR s'
  end.

(** [rawLine.replace(/\uFEFF/g, empty)]: every U+FEFF is removed. *)
Definition stripBOM (s : jsstring) : jsstring :=
  filter (fun c => negb (c =? BOM)) s.

(** [c.replace(/QUOTE/g, QUOTE QUOTE)]: every quote character is doubled. *)
Definition doubleQuotes (c : jsstring) : jsstring :=
  flat_map (fun x => if x =? QUOTE then [QUOTE; QUOTE] else [x]) c.

(** ** parseCsvLine and joinCsvLine (identical in the two scripts)

    Every call site passes the delimiter [PIPE], a single code unit. *)

Definition parseCsvLine (line : jsstring) (delimiter : N) : list jsstring :=
  let cleaned := dropTrailingCR line in
  split delimiter cleaned.

Definition quoteCell (delimiter : N) (c : jsstring) : jsstring :=
  if includes delimiter c then QUOTE :: doubleQuotes c ++ [QUOTE] else c.

Definition joinCsvLine (cells : list jsstring) (delimiter : N) : jsstring :=
  join delimiter (map (quoteCell delimiter) cells).

(** The inverse of the writer's quoting rule.  The source has no such
    function: this definition follows the specification's words (the same
    quote-unescaping rule) and is only compared with [parseCsvLine]. *)
Fixpoint undoubleQuotes (s : jsstring) : jsstring :=
  match s with
  | [] => []
  | c :: s' =>
      if c =? QUOTE
      then match s' with
           | c' :: s'' => if c' =? QUOTE then QUOTE :: undoubleQuotes s''
                          else c :: undoubleQuotes s'
           | [] => [c]
           end
      else c :: undoubleQuotes s'
  end.

Definition unquoteField (s : jsstring) : jsstring :=
  match s with
  | c :: s' => if c =? QUOTE then undoubleQuotes (removelast s') else s
  | [] => []
  end.

(** ** Built-ins of the language used by the scripts *)

(** White space of [String.prototype.trim] and of the pattern class [\s]:
    the WhiteSpace and LineTerminator code points. *)
Definition isWhiteSpace (c : N) : bool :=
  (c =? 0x09) || (c =? 0x0A) || (c =? 0x0B) || (c =? 0x0C) || (c =? 0x0D)
  || (c =? 0x20) || (c =? 0xA0) || (c =? 0x1680)
  || ((0x2000 <=? c) && (c <=? 0x200A))
  || (c =? 0x2028) || (c =? 0x2029) || (c =? 0x202F) || (c =? 0x205F)
  || (c =? 0x3000) || (c =? 0xFEFF).

Fixpoint trimStart (s : jsstring) : jsstring :=
  match s with
  | c :: s' => if isWhiteSpace c then trimStart s' else s
  | [] => []
  end.

Definition trim (s : jsstring) : jsstring :=
  rev (trimStart (rev (trimStart s))).

(** [toLowerCase], unit by unit.  Only the mappings that produce an ASCII
    letter are written out (A-Z, U+212A KELVIN SIGN, U+0130); every other
    unit is left as it is, which no comparison with an ASCII literal can
    tell from the full Unicode table. *)
Definition lowerUnit (c : N) : jsstring :=
  if (0x41 <=? c) && (c <=? 0x5A) then [c + 0x20]
  else if c =? 0x212A then [0x6B]
  else if c =? 0x130 then [0x69; 0x307]
  else [c].

Definition toLowerCase (s : jsstring) : jsstring := flat_map lowerUnit s.

(** [`${n}`] for a non-negative integer. *)
Definition showN (n : N) : jsstring := lit (DecimalString.NilZero.string_of_uint (N.to_uint n)).

(** [arr.indexOf(x)]: the first index holding [x], or -1. *)
Fixpoint indexOfFrom (x : jsstring) (arr : list jsstring) (i : Z) : Z :=
  match arr with
  | [] => (-1)%Z
  | y :: arr' => if jsstring_eqb y x then i else indexOfFrom x arr' (i + 1)%Z
  end.

Definition indexOf (arr : list jsstring) (x : jsstring) : Z := indexOfFrom x arr 0%Z.

(** [arr[i]]: [None] stands for [undefined]. *)
Definition at_index (arr : list jsstring) (i : Z) : option jsstring :=
  if (i <? 0)%Z then None else nth_error arr (Z.to_nat i).

(** [s.slice(0, n)] on strings and arrays. *)
Definition slice0 {A} (n : nat) (l : list A) : list A := firstn n l.

(** [while (cells.length < n) cells.push(empty)]. *)
Definition padTo (n : nat) (cells : list jsstring) : list jsstring :=
  cells ++ repeat [] (n - List.length cells).

(** ** The transliteration collaborator *)

(** A call of [transliterate(text, tiberian)] either returns a string or
    throws an error carrying a message. *)
Inductive Outcome : Type :=
| Returns (text : jsstring)
| Throws (message : jsstring).

(** ** findOffendingWord *)

(** The character class shared by the two patterns of [findOffendingWord]:
    white space, maqaf U+05BE, hyphen-minus and U+2010 to U+2015. *)
Definition isSeparator (c : N) : bool :=
  isWhiteSpace c || (c =? 0x5BE) || (c =? 0x2D)
  || ((0x2010 <=? c) && (c <=? 0x2015)).

(** [heb.split(/([SEP]+)/u)]: the text between separator runs and, because
    of the capture group, the runs themselves.  [cur] is the piece being
    read and [inSep] tells whether it is a separator run; a string that ends
    in a separator run yields a last empty piece, as in the language. *)
Fixpoint splitRuns (cur : jsstring) (inSep : bool) (s : jsstring) : list jsstring :=
  match s with
  | [] => if inSep then [cur; []] else [cur]
  | c :: s' =>
      if Bool.eqb (isSeparator c) inSep
      then splitRuns (cur ++ [c]) inSep s'
      else cur :: splitRuns [c] (isSeparator c) s'
  end.

Definition splitKeepingSeparators (s : jsstring) : list jsstring :=
  splitRuns [] false s.

(** [/^[SEP]+$/.test(tok)]. *)
Definition isPureSeparator (tok : jsstring) : bool :=
  truthy tok && forallb isSeparator tok.

Section Collaborator.

Variable transliterate : jsstring -> Outcome.

(** The [for (const tok of tokens)] loop. *)
Fixpoint firstThrowing (tokens : list jsstring) : option jsstring :=
  match tokens with
  | [] => None
  | tok :: rest =>
      if isPureSeparator tok then firstThrowing rest
      else match transliterate tok with
           | Throws _ => Some tok
           | Returns _ => firstThrowing rest
           end
  end.

Definition findOffendingWord (heb : jsstring) : option jsstring :=
  let tokens := filter truthy (splitKeepingSeparators heb) in
  firstThrowing tokens.

(** [heb ? transliterate(heb, tiberian) : empty], where [heb] is
    [cells[vocalizedIdx]]: an absent or empty field is not sent to the
    library. *)
Definition tiberianOf (heb : option jsstring) : Outcome :=
  match heb with
  | Some (c :: h) => transliterate (c :: h)
  | _ => Returns []
  end.

End Collaborator.

(** ** The process and its channels *)

(** What a run can observe and change.

    - [outputFile]: the chunks handed to [outputStream.write], in order.
      They are the content of the output file once the stream has been
      ended and closed, or the process has ended on its own; a process
      killed by an uncaught error may leave only a part of them in the
      file (see [possibleFile]).
    - [errChannel], [outChannel]: the lines sent to [console.error] and to
      standard output (prompts included).
    - [operator]: for each prompt still to come, in turn, the line that the
      readline interface opened for that prompt hands to its callback.  An
      interface is opened for one prompt and closed in its callback, so
      text that reaches standard input while no prompt waits for it, or
      behind an answer in the same chunk, is read by nobody and is not in
      this list.  When the list is empty no callback is ever called again
      (standard input has ended, or the operator never answers).
    - [exitCode]: [process.exitCode]. *)
Record World : Type := mkWorld {
  outputFile : list jsstring;
  errChannel : list jsstring;
  outChannel : list jsstring;
  operator : list jsstring;
  exitCode : option N
}.

Definition write (chunk : jsstring) (w : World) : World :=
  mkWorld (outputFile w ++ [chunk]) (errChannel w) (outChannel w) (operator w) (exitCode w).

Definition consoleError (msg : jsstring) (w : World) : World :=
  mkWorld (outputFile w) (errChannel w ++ [msg]) (outChannel w) (operator w) (exitCode w).

Definition consoleLog (msg : jsstring) (w : World) : World :=
  mkWorld (outputFile w) (errChannel w) (outChannel w ++ [msg]) (operator w) (exitCode w).

Definition setExitCode (c : N) (w : World) : World :=
  mkWorld (outputFile w) (errChannel w) (outChannel w) (operator w) (Some c).

(** [rlPrompt.question(text, callback)]: the text goes to standard output
    and the callback receives the line delivered for this prompt.  [None]
    is the case in which the callback is never called. *)
Definition question (text : jsstring) (w : World) : option jsstring * World :=
  let w' := consoleLog text w in
  match operator w' with
  | [] => (None, w')
  | a :: more =>
      (Some a, mkWorld (outputFile w') (errChannel w') (outChannel w') more (exitCode w'))
  end.

(** [String(answer || empty).trim().toLowerCase()] compared with the two
    affirmative words. *)
Definition affirmative (answer : option jsstring) : bool :=
  let normalized :=
    toLowerCase (trim (match answer with Some a => a | None => [] end)) in
  jsstring_eqb normalized (lit "y") || jsstring_eqb normalized (lit "yes").

(** [promptToContinue]: the promise is resolved inside the callback of
    [question] and nowhere else, so it settles with the verdict on the
    answer when an answer is delivered and never settles otherwise
    ([None]). *)
Definition promptToContinue (message : jsstring) (w : World) : option bool * World :=
  let (answer, w') := question (message ++ lit " Continue? (y/N): ") w in
  (match answer with
   | Some a => Some (affirmative (Some a))
   | None => None
   end, w').

(** How one pass through the body of the [for await] loop ends, and with
    it how [main] ends: [Next] is falling through or [continue] (and, for a
    whole loop, the input being exhausted), [ExitNow] is [process.exit],
    [Thrown] is an error that nothing caught, [Stalled] is an [await] on a
    promise that never settles: [main] is never resumed, so nothing after
    the [await] runs (no further row, no [outputStream.end()], no status
    line). *)
Inductive Control : Type :=
| Next
| Break
| ExitNow (code : N)
| Thrown (message : jsstring)
| Stalled.

(** The command line, once read: [process.argv[2]], [process.argv[3]] (or
    their defaults) and the two flags. *)
Record Config : Type := mkConfig {
  inputPath : jsstring;
  outputPath : jsstring;
  debug : bool;
  skipErrors : bool
}.

Definition newline : jsstring := [LF].

Definition initialWorld (answers : list jsstring) : World :=
  mkWorld [] [] [] answers None.

(** The status the operating system sees when the process ends; what an
    uncaught error gives is left to the runtime.  A stalled run, once
    standard input has ended, has nothing left to wait for and ends with
    [process.exitCode] as it stands. *)
Definition exitStatus (r : World * Control) : option N :=
  match snd r with
  | ExitNow c => Some c
  | Thrown _ => None
  | _ => match exitCode (fst r) with Some c => Some c | None => Some 0 end
  end.

(** ** src/unnamed/part_000: the script with an error policy *)

Module Mjs.

(** The variables declared before the loop. *)
Record Locals : Type := mkLocals {
  headerProcessed : bool;
  vocalizedIdx : Z;
  headerCells : list jsstring;
  lineNumber : N
}.

Definition initialLocals : Locals := mkLocals false (-1)%Z [] 0.

Section Script.

Variable transliterate : jsstring -> Outcome.
Variable cfg : Config.

Definition delimiter : N := PIPE.

(** The text after [CSV line n]: the first three cells in brackets when
    [locationHint] is not empty. *)
Definition location (l : Locals) (cells : list jsstring) : jsstring :=
  let locationHint := join PIPE (slice0 3 (headerCells l)) in
  if truthy locationHint
  then lit " (" ++ join PIPE (slice0 3 cells) ++ lit ")"
  else [].

Definition errorLine (l : Locals) (cells : list jsstring) (message : jsstring) : jsstring :=
  lit "Error at CSV line " ++ showN (lineNumber l) ++ location l cells
    ++ lit ": " ++ message.

Definition debugLine (l : Locals) (cells : list jsstring) (message : jsstring) : jsstring :=
  lit "Transliteration error at CSV line " ++ showN (lineNumber l) ++ location l cells
    ++ lit ": " ++ message.

Definition excerptLine (line : jsstring) : jsstring :=
  lit "Row excerpt: " ++ slice0 200 line
    ++ (if (200 <? List.length line)%nat then lit "..." else []).

(** The diagnostics of the [catch] block. *)
Definition report (l : Locals) (line : jsstring) (cells : list jsstring)
    (heb : option jsstring) (message : jsstring) (w : World) : World :=
  if debug cfg then
    let badWord :=
      match heb with
      | Some (c :: h) => findOffendingWord transliterate (c :: h)
      | _ => None
      end in
    let w1 := consoleError (debugLine l cells message) w in
    let w2 :=
      match badWord with
      | Some (c :: t) => consoleError (lit "Offending token: " ++ c :: t) w1
      | _ => w1
      end in
    consoleError (excerptLine line) w2
  else consoleError (errorLine l cells message) w.

(** One pass through the loop body. *)
Definition iteration (rawLine : jsstring) (l0 : Locals) (w : World)
    : Locals * World * Control :=
  let l := mkLocals (headerProcessed l0) (vocalizedIdx l0) (headerCells l0)
             (lineNumber l0 + 1) in
  let line := stripBOM rawLine in
  if negb (headerProcessed l) then
    let cells := parseCsvLine line delimiter in
    let idx := indexOf cells (lit "vocalized") in
    let l1 := mkLocals (headerProcessed l) idx cells (lineNumber l) in
    if (idx =? -1)%Z then
      (l1, consoleError (lit "Header must include 'vocalized' column") w, ExitNow 1)
    else
      (mkLocals true idx cells (lineNumber l),
       write (joinCsvLine (cells ++ [lit "tiberian"]) delimiter ++ newline) w,
       Next)
  else if jsstring_eqb (trim line) [] then (l, w, Next)
  else
    let cells := padTo (List.length (headerCells l)) (parseCsvLine line delimiter) in
    let heb := at_index cells (vocalizedIdx l) in
    match tiberianOf transliterate heb with
    | Returns tib =>
        (l, write (joinCsvLine (cells ++ [tib]) delimiter ++ newline) w, Next)
    | Throws message =>
        let tib : jsstring := [] in
        let w1 := report l line cells heb message w in
        if skipErrors cfg then
          (l, write (joinCsvLine (cells ++ [tib]) delimiter ++ newline) w1, Next)
        else
          let (settled, w2) :=
            promptToContinue (lit "An error occurred while transliterating this row.") w1 in
          match settled with
          | None => (l, w2, Stalled)
          | Some proceed =>
              if negb proceed then (l, setExitCode 1 w2, Break)
              else (l, write (joinCsvLine (cells ++ [tib]) delimiter ++ newline) w2, Next)
          end
    end.

(** The [for await (const rawLine of rl)] loop. *)
Fixpoint forEachLine (lines : list jsstring) (l : Locals) (w : World)
    : Locals * World * Control :=
  match lines with
  | [] => (l, w, Next)
  | rawLine :: rest =>
      match iteration rawLine l w with
      | (l', w', Next) => forEachLine rest l' w'
      | stopped => stopped
      end
  end.

(** The last statements of [main]. *)
Definition finish (w : World) : World :=
  match exitCode w with
  | Some c =>
      if negb (c =? 0) then consoleError (lit "Completed with errors. See messages above.") w
      else consoleLog (lit "Wrote: " ++ outputPath cfg) w
  | None => consoleLog (lit "Wrote: " ++ outputPath cfg) w
  end.

(** [main], with the [catch] handler attached to its call: [file] is
    the input file as the line reader delivers it, [None] when
    [fs.existsSync(inputPath)] is false.  When the loop is left waiting at
    a prompt ([Stalled]) the statements after the loop are never reached. *)
Definition main (file : option (list jsstring)) (w : World) : World * Control :=
  match file with
  | None => (consoleError (lit "Input file not found: " ++ inputPath cfg) w, ExitNow 1)
  | Some lines =>
      match forEachLine lines initialLocals w with
      | (_, w', ExitNow c) => (w', ExitNow c)
      | (_, w', Thrown m) => (consoleError m w', ExitNow 1)
      | (_, w', Stalled) => (w', Stalled)
      | (_, w', _) => (finish w', Next)
      end
  end.

End Script.

End Mjs.

(** ** src/scripts/transliterate_csv.ts: the plain script *)

Module Ts.

Record Locals : Type := mkLocals {
  headerProcessed : bool;
  vocalizedIdx : Z;
  headerCells : list jsstring
}.

Definition initialLocals : Locals := mkLocals false (-1)%Z [].

Section Script.

Variable transliterate : jsstring -> Outcome.
Variable cfg : Config.

Definition delimiter : N := PIPE.

(** One pass through the loop body; nothing catches what the library
    throws. *)
Definition iteration (rawLine : jsstring) (l : Locals) (w : World)
    : Locals * World * Control :=
  let line := stripBOM rawLine in
  if negb (headerProcessed l) then
    let cells := parseCsvLine line delimiter in
    let idx := indexOf cells (lit "vocalized") in
    let l1 := mkLocals (headerProcessed l) idx cells in
    if (idx =? -1)%Z then
      (l1, consoleError (lit "Header must include 'vocalized' column") w, ExitNow 1)
    else
      let outHeader := cells ++ [lit "tiberian"] in
      (mkLocals true idx cells,
       write (joinCsvLine outHeader delimiter ++ newline) w,
       Next)
  else if jsstring_eqb (trim line) [] then (l, w, Next)
  else
    let cells := padTo (List.length (headerCells l)) (parseCsvLine line delimiter) in
    let heb := at_index cells (vocalizedIdx l) in
    match tiberianOf transliterate heb with
    | Returns tib =>
        let outRow := cells ++ [tib] in
        (l, write (joinCsvLine outRow delimiter ++ newline) w, Next)
    | Throws message => (l, w, Thrown message)
    end.

Fixpoint forEachLine (lines : list jsstring) (l : Locals) (w : World)
    : Locals * World * Control :=
  match lines with
  | [] => (l, w, Next)
  | rawLine :: rest =>
      match iteration rawLine l w with
      | (l', w', Next) => forEachLine rest l' w'
      | stopped => stopped
      end
  end.

(** [main].  Nothing catches an error of the library: with [Thrown] the
    promise of [main] is rejected, nothing handles the rejection and the
    process dies, the output stream neither ended nor closed. *)
Definition main (file : option (list jsstring)) (w : World) : World * Control :=
  match file with
  | None => (consoleError (lit "Input file not found: " ++ inputPath cfg) w, ExitNow 1)
  | Some lines =>
      match forEachLine lines initialLocals w with
      | (_, w', Next) => (consoleLog (lit "Wrote: " ++ outputPath cfg) w', Next)
      | (_, w', stopped) => (w', stopped)
      end
  end.

End Script.

End Ts.

(** ** A stand-in for the library, for running the scripts on examples

    It throws on any text holding the Latin letter X and otherwise
    returns the text between two slashes. *)
Definition sampleTransliterate (text : jsstring) : Outcome :=
  if includes 0x58 text then Throws (lit "unsupported character")
  else Returns ([0x2F] ++ text ++ [0x2F]).

Definition sampleConfig (dbg skip : bool) : Config :=
  mkConfig (lit "in.csv") (lit "out.csv") dbg skip.

(** ** Vocabulary of the statements *)

(** The string ends with the unit [x]. *)
Fixpoint endsWith (x : N) (s : jsstring) : bool :=
  match s with
  | [] => false
  | [c] => c =? x
  | _ :: s' => endsWith x s'
  end.

(** A field that the writer leaves alone and the reader cannot damage: no
    delimiter, no quote character, no carriage return at its end. *)
Definition plainField (c : jsstring) : Prop :=
  includes PIPE c = false /\ includes QUOTE c = false /\ endsWith CR c = false.

(** [line.trim() === empty] on the line as the loop sees it. *)
Definition isBlank (rawLine : jsstring) : bool :=
  jsstring_eqb (trim (stripBOM rawLine)) [].

(** The cells of a data row under a header of [width] columns. *)
Definition rowCells (width : nat) (rawLine : jsstring) : list jsstring :=
  padTo width (parseCsvLine (stripBOM rawLine) PIPE).

(** The line written for a row. *)
Definition outputRow (cells : list jsstring) (tib : jsstring) : jsstring :=
  joinCsvLine (cells ++ [tib]) PIPE ++ newline.

(** Several chunks written one after the other. *)
Definition writeAll (chunks : list jsstring) (w : World) : World :=
  fold_left (fun w' chunk => write chunk w') chunks w.

(** What the library returned for a field, the empty string when it threw. *)
Definition textOf (o : Outcome) : jsstring :=
  match o with Returns t => t | Throws _ => [] end.

(** A token of the search: not empty, and either made of separators only
    or free of them. *)
Definition isRun (t : jsstring) : Prop :=
  t <> [] /\ (forallb isSeparator t = true
              \/ forallb (fun c => negb (isSeparator c)) t = true).

(** Neighbouring tokens are of different kinds, so that each one is a
    longest run. *)
Fixpoint alternate (toks : list jsstring) : Prop :=
  match toks with
  | a :: rest =>
      match rest with
      | b :: _ => isPureSeparator a <> isPureSeparator b
      | [] => True
      end /\ alternate rest
  | [] => True
  end.

(** All units of [t] are separators ([b] true) or none is ([b] false). *)
Definition uniform (b : bool) (t : jsstring) : bool :=
  forallb (fun c => Bool.eqb (isSeparator c) b) t.

(** A token the search passes over: a separator run, or one the library
    accepts. *)
Definition passes (transliterate : jsstring -> Outcome) (t : jsstring) : Prop :=
  isPureSeparator t = true \/ exists r, transliterate t = Returns r.

(** The locals of the error-policy script after [lineNumber += 1]. *)
Definition bump (l : Mjs.Locals) : Mjs.Locals :=
  Mjs.mkLocals (Mjs.headerProcessed l) (Mjs.vocalizedIdx l) (Mjs.headerCells l)
    (Mjs.lineNumber l + 1).

(** The header line as written: the header without byte-order marks and
    final carriage return, then the new column name. *)
Definition headerOut (rawHeader : jsstring) : jsstring :=
  dropTrailingCR (stripBOM rawHeader) ++ lit "|tiberian" ++ newline.

Definition headerError : jsstring := lit "Header must include 'vocalized' column".

Definition promptText : jsstring := lit "An error occurred while transliterating this row.".

(** The first diagnostic line of a failing row: it names the physical
    line [n], then the location and the library's message. *)
Definition headline (cfg : Config) (n : N) (where_ message : jsstring) : jsstring :=
  (if debug cfg then lit "Transliteration error at CSV line " else lit "Error at CSV line ")
    ++ showN n ++ where_ ++ lit ": " ++ message.

(** The field of a data row that is sent to the library, under a header
    of [width] columns with [vocalized] at index [idx]. *)
Definition fieldOf (width : nat) (idx : Z) (rawLine : jsstring) : option jsstring :=
  at_index (rowCells width rawLine) idx.

(** A data row the run gets past without a diagnostic: a blank line, or a
    row whose field is empty or accepted by the library. *)
Definition accepted (transliterate : jsstring -> Outcome) (width : nat) (idx : Z)
    (rawLine : jsstring) : Prop :=
  isBlank rawLine = true
  \/ exists t, tiberianOf transliterate (fieldOf width idx rawLine) = Returns t.

(** The line written for a data row: its cells, then what the library
    returned for its field. *)
Definition rowWritten (transliterate : jsstring -> Outcome) (width : nat) (idx : Z)
    (rawLine : jsstring) : jsstring :=
  outputRow (rowCells width rawLine)
    (textOf (tiberianOf transliterate (fieldOf width idx rawLine))).

Definition completedWithErrors : jsstring := lit "Completed with errors. See messages above.".

(** A data row that is not blank and whose field the library rejects. *)
Definition isRejected (transliterate : jsstring -> Outcome) (width : nat) (idx : Z)
    (rawLine : jsstring) : bool :=
  negb (isBlank rawLine)
  && match tiberianOf transliterate (fieldOf width idx rawLine) with
     | Throws _ => true
     | Returns _ => false
     end.

(** The ten spellings of the two affirmative words. *)
Definition affirmativeWords : list jsstring :=
  [lit "y"; lit "Y"; lit "yes"; lit "yeS"; lit "yEs"; lit "yES";
   lit "Yes"; lit "YeS"; lit "YEs"; lit "YES"].

(** The answer the callback works on: [answer || empty]. *)
Definition answerText (answer : option jsstring) : jsstring :=
  match answer with Some a => a | None => [] end.

(** [part] occurs in [whole] as a contiguous piece. *)
Definition isSubstring (part whole : jsstring) : Prop :=
  exists before after, whole = before ++ part ++ after.

(** [short] is what [long] starts with. *)
Definition isPrefix (short long : list jsstring) : Prop :=
  exists rest, long = short ++ rest.

(** The texts the output file can hold when the process has ended with
    result [r].  A process that ends on its own leaves every chunk handed
    to the stream in the file.  One that is killed, by an uncaught error
    or by [process.exit], dies with writes still pending, and the file
    holds some beginning of the text handed over; the source does not say
    how much. *)
Definition possibleFile (r : World * Control) (text : jsstring) : Prop :=
  match snd r with
  | Thrown _ | ExitNow _ => exists lost, List.concat (outputFile (fst r)) = text ++ lost
  | _ => text = List.concat (outputFile (fst r))
  end.

(** The text shown at a prompt. *)
Definition promptLine : jsstring := promptText ++ lit " Continue? (y/N): ".

(** ** The reader and the writer *)

Lemma jsstring_eqb_eq (a b : jsstring) : jsstring_eqb a b = true <-> a = b.
Proof.
  unfold jsstring_eqb. destruct (list_eq_dec N.eq_dec a b); split; congruence.
Qed.

Lemma jsstring_eqb_neq (a b : jsstring) : jsstring_eqb a b = false <-> a <> b.
Proof.
  unfold jsstring_eqb. destruct (list_eq_dec N.eq_dec a b); split; congruence.
Qed.

Lemma split_cons_shape (d : N) (s : jsstring) : exists p ps, split d s = p :: ps.
Proof.
  induction s as [|c s [p [ps IH]]]; simpl.
  - now exists [], [].
  - destruct (c =? d); [now exists [], (split d s)|].
    rewrite IH. now exists (c :: p), ps.
Qed.

Lemma split_pieces_plain (d : N) (s : jsstring) :
  Forall (fun p => includes d p = false) (split d s).
Proof.
  induction s as [|c s IH]; simpl.
  - repeat constructor.
  - destruct (N.eqb_spec c d) as [->|Hcd].
    + constructor; [reflexivity | exact IH].
    + destruct (split d s) as [|p ps]; [repeat constructor; simpl|].
      * rewrite (proj2 (N.eqb_neq d c)); auto.
      * inversion IH; subst. constructor; auto. simpl.
        rewrite (proj2 (N.eqb_neq d c)); auto.
Qed.

Lemma join_split (d : N) (s : jsstring) : join d (split d s) = s.
Proof.
  induction s as [|c s IH]; simpl; [reflexivity|].
  destruct (split_cons_shape d s) as [p [ps E]].
  destruct (N.eqb_spec c d) as [->|Hcd].
  - rewrite E in *. simpl. now rewrite <- IH.
  - rewrite E in *. simpl in *. destruct ps; simpl in *; now rewrite <- IH.
Qed.

Lemma split_app_plain (d : N) (c rest : jsstring) :
  includes d c = false -> split d (c ++ d :: rest) = c :: split d rest.
Proof.
  induction c as [|x c IH]; simpl; intros H.
  - now rewrite N.eqb_refl.
  - apply orb_false_iff in H as [Hx Hc]. rewrite N.eqb_sym in Hx. rewrite Hx.
    now rewrite (IH Hc).
Qed.

Lemma split_plain (d : N) (c : jsstring) : includes d c = false -> split d c = [c].
Proof.
  induction c as [|x c IH]; simpl; intros H; [reflexivity|].
  apply orb_false_iff in H as [Hx Hc]. rewrite N.eqb_sym in Hx. rewrite Hx.
  now rewrite (IH Hc).
Qed.

Lemma split_join (d : N) (cells : list jsstring) :
  cells <> [] -> Forall (fun c => includes d c = false) cells ->
  split d (join d cells) = cells.
Proof.
  induction cells as [|c cs IH]; intros Hne Hall; [congruence|].
  inversion Hall as [|? ? Hc Hcs]; subst.
  destruct cs as [|c2 cs]; [now apply split_plain|].
  change (join d (c :: c2 :: cs)) with (c ++ d :: join d (c2 :: cs)).
  rewrite (split_app_plain _ _ _ Hc). f_equal. apply IH; [discriminate | assumption].
Qed.

Lemma quoteCell_plain (d : N) (c : jsstring) : includes d c = false -> quoteCell d c = c.
Proof. unfold quoteCell. now intros ->. Qed.

Lemma joinCsvLine_plain (d : N) (cells : list jsstring) :
  Forall (fun c => includes d c = false) cells -> joinCsvLine cells d = join d cells.
Proof.
  unfold joinCsvLine. intros H. f_equal. induction H; simpl; [reflexivity|].
  now rewrite quoteCell_plain, IHForall.
Qed.

Lemma join_snoc (d : N) (cells : list jsstring) (x : jsstring) :
  cells <> [] -> join d (cells ++ [x]) = join d cells ++ d :: x.
Proof.
  induction cells as [|c cs IH]; intros Hne; [congruence|].
  destruct cs as [|c2 cs]; [reflexivity|].
  change (join d ((c :: c2 :: cs) ++ [x])) with (c ++ d :: join d ((c2 :: cs) ++ [x])).
  rewrite IH by discriminate.
  change (join d (c :: c2 :: cs)) with (c ++ d :: join d (c2 :: cs)).
  now rewrite <- app_assoc.
Qed.

Lemma dropTrailingCR_keeps (s : jsstring) : endsWith CR s = false -> dropTrailingCR s = s.
Proof.
  induction s as [|c s IH]; [reflexivity|].
  destruct s as [|c2 s]; simpl; [now intros ->|].
  intros H. f_equal. now apply IH.
Qed.

Lemma endsWith_app_cons (x : N) (a : jsstring) (c : N) (b : jsstring) :
  endsWith x (a ++ c :: b) = endsWith x (c :: b).
Proof.
  induction a as [|y a IH]; [reflexivity|].
  simpl app. rewrite <- IH. simpl. destruct (a ++ c :: b) eqn:E; [|reflexivity].
  now destruct a.
Qed.

Lemma endsWith_join (cells : list jsstring) :
  Forall (fun c => endsWith CR c = false) cells -> endsWith CR (join PIPE cells) = false.
Proof.
  induction cells as [|c cs IH]; intros Hall; [reflexivity|].
  inversion Hall as [|? ? Hc Hcs]; subst.
  destruct cs as [|c2 cs]; [exact Hc|].
  change (join PIPE (c :: c2 :: cs)) with (c ++ PIPE :: join PIPE (c2 :: cs)).
  rewrite endsWith_app_cons. specialize (IH Hcs).
  destruct (join PIPE (c2 :: cs)) eqn:E; [reflexivity | exact IH].
Qed.

Lemma undouble_double (c : jsstring) : undoubleQuotes (doubleQuotes c) = c.
Proof.
  induction c as [|x c IH]; [reflexivity|].
  unfold doubleQuotes in *. simpl flat_map.
  destruct (N.eqb_spec x QUOTE) as [->|Hx].
  - simpl. now rewrite IH.
  - simpl. rewrite (proj2 (N.eqb_neq x QUOTE) Hx). now rewrite IH.
Qed.

(** C10, as stated, fails on the empty list of fields: joining it gives the
    empty line, and splitting the empty line gives one empty field. *)
Lemma parse_join_empty_list :
  Forall plainField [] /\ parseCsvLine (joinCsvLine [] PIPE) PIPE = [[]]
  /\ parseCsvLine (joinCsvLine [] PIPE) PIPE <> [].
Proof.
  split; [constructor|]. split; [reflexivity | discriminate].
Qed.

(** C10 (amended): for every non-empty list of fields in which no field
    contains the delimiter or the quote character and no field ends with a
    carriage return, [parseCsvLine] after [joinCsvLine] gives the list
    back. *)
Theorem parse_join_plain (cells : list jsstring) :
  cells <> [] -> Forall plainField cells ->
  parseCsvLine (joinCsvLine cells PIPE) PIPE = cells.
Proof.
  intros Hne Hall.
  assert (Hd : Forall (fun c => includes PIPE c = false) cells)
    by (eapply Forall_impl; [|exact Hall]; intros c Hc; apply Hc).
  assert (Hr : Forall (fun c => endsWith CR c = false) cells)
    by (eapply Forall_impl; [|exact Hall]; intros c Hc; apply Hc).
  unfold parseCsvLine. rewrite (joinCsvLine_plain _ _ Hd).
  rewrite (dropTrailingCR_keeps _ (endsWith_join _ Hr)).
  now apply split_join.
Qed.

Lemma parse_join_plain_witness :
  parseCsvLine (joinCsvLine [lit "Gen"; []; lit "1"] PIPE) PIPE = [lit "Gen"; []; lit "1"].
Proof.
  apply (parse_join_plain [lit "Gen"; []; lit "1"]).
  - discriminate.
  - repeat constructor.
Defined.

(** C3, as stated, fails: the field a|b is written between quotes, and the
    program's reader splits what was written at the delimiter inside them. *)
Lemma reparse_quoted_field_differs :
  includes PIPE (lit "a|b") = true
  /\ joinCsvLine [lit "a|b"] PIPE = QUOTE :: lit "a|b" ++ [QUOTE]
  /\ parseCsvLine (joinCsvLine [lit "a|b"] PIPE) PIPE = [QUOTE :: lit "a"; lit "b" ++ [QUOTE]]
  /\ parseCsvLine (joinCsvLine [lit "a|b"] PIPE) PIPE <> [lit "a|b"].
Proof.
  repeat split; try reflexivity. discriminate.
Qed.

(** C3 (amended): a field that contains the delimiter is written between
    two quote characters with every quote character of its own doubled;
    undoing that rule (dropping the outer quotes, halving the doubled ones)
    recovers the field, but [parseCsvLine] does not undo it: it splits the
    written field at every delimiter and never returns the original. *)
Theorem quoted_field_roundtrip (c : jsstring) :
  includes PIPE c = true ->
  joinCsvLine [c] PIPE = QUOTE :: doubleQuotes c ++ [QUOTE]
  /\ unquoteField (joinCsvLine [c] PIPE) = c
  /\ parseCsvLine (joinCsvLine [c] PIPE) PIPE <> [c].
Proof.
  intros Hc.
  assert (E : joinCsvLine [c] PIPE = QUOTE :: doubleQuotes c ++ [QUOTE])
    by (unfold joinCsvLine, quoteCell; simpl; now rewrite Hc).
  split; [exact E|]. split.
  - rewrite E. unfold unquoteField. rewrite N.eqb_refl.
    rewrite removelast_last. apply undouble_double.
  - intros Habs.
    pose proof (split_pieces_plain PIPE (dropTrailingCR (joinCsvLine [c] PIPE))) as Hp.
    unfold parseCsvLine in Habs. rewrite Habs in Hp.
    inversion Hp; subst. congruence.
Qed.

Lemma quoted_field_roundtrip_witness :
  joinCsvLine [[0x61; PIPE; QUOTE; 0x62]] PIPE
    = QUOTE :: doubleQuotes [0x61; PIPE; QUOTE; 0x62] ++ [QUOTE]
  /\ unquoteField (joinCsvLine [[0x61; PIPE; QUOTE; 0x62]] PIPE) = [0x61; PIPE; QUOTE; 0x62]
  /\ parseCsvLine (joinCsvLine [[0x61; PIPE; QUOTE; 0x62]] PIPE) PIPE
       <> [[0x61; PIPE; QUOTE; 0x62]].
Proof.
  apply (quoted_field_roundtrip [0x61; PIPE; QUOTE; 0x62]). reflexivity.
Defined.

(** ** The offending-token search *)

Lemma uniform_snoc (b : bool) (t : jsstring) (c : N) :
  uniform b t = true -> isSeparator c = b -> uniform b (t ++ [c]) = true.
Proof.
  unfold uniform. intros Ht Hc. rewrite forallb_app, Ht. simpl.
  rewrite Hc. now destruct b.
Qed.

Lemma uniform_true (t : jsstring) : uniform true t = forallb isSeparator t.
Proof.
  induction t as [|c t IH]; [reflexivity|].
  unfold uniform in *. simpl. rewrite IH. now destruct (isSeparator c).
Qed.

Lemma uniform_false (t : jsstring) :
  uniform false t = forallb (fun c => negb (isSeparator c)) t.
Proof.
  induction t as [|c t IH]; [reflexivity|].
  unfold uniform in *. simpl. rewrite IH. now destruct (isSeparator c).
Qed.

Lemma uniform_kind (b : bool) (t : jsstring) :
  t <> [] -> uniform b t = true -> isPureSeparator t = b /\ isRun t.
Proof.
  intros Hne Hu. unfold isPureSeparator, isRun.
  destruct t as [|c t]; [congruence|]. cbn [truthy andb].
  destruct b.
  - rewrite uniform_true in Hu. rewrite Hu. repeat split; auto.
  - rewrite uniform_false in Hu. split; [|split; auto].
    simpl in Hu |- *. apply andb_true_iff in Hu as [Ec _].
    now destruct (isSeparator c).
Qed.

Lemma splitRuns_tokens (s cur : jsstring) (inSep : bool) :
  uniform inSep cur = true ->
  let toks := filter truthy (splitRuns cur inSep s) in
  List.concat toks = cur ++ s
  /\ Forall isRun toks
  /\ alternate toks
  /\ (cur <> [] -> exists t rest, toks = t :: rest /\ isPureSeparator t = inSep).
Proof.
  revert cur inSep. induction s as [|c s IH]; intros cur inSep Hu; cbn zeta.
  - assert (E : filter truthy (splitRuns cur inSep []) = filter truthy [cur])
      by (simpl; destruct inSep; simpl; now destruct (truthy cur)).
    rewrite E. simpl. destruct cur as [|x cur]; simpl.
    + repeat split; auto. congruence.
    + rewrite !app_nil_r.
      destruct (uniform_kind inSep (x :: cur)) as [K R]; [discriminate | exact Hu |].
      repeat split; auto. intros _. now exists (x :: cur), [].
  - simpl splitRuns. destruct (Bool.eqb (isSeparator c) inSep) eqn:Ec.
    + apply eqb_prop in Ec.
      destruct (IH (cur ++ [c]) inSep (uniform_snoc _ _ _ Hu Ec)) as (Hc & Hr & Ha & Hf).
      rewrite <- app_assoc in Hc. repeat split; auto.
      intros _. apply Hf. now destruct cur.
    + apply eqb_false_iff in Ec.
      assert (Hu1 : uniform (isSeparator c) [c] = true)
        by (unfold uniform; simpl; now destruct (isSeparator c)).
      destruct (IH [c] (isSeparator c) Hu1) as (Hc & Hr & Ha & Hf).
      destruct Hf as (t & rest & Et & Kt); [discriminate|].
      simpl filter. destruct cur as [|x cur]; cbn [truthy].
      * rewrite Et in *. split; [exact Hc|]. split; [exact Hr|]. split; [exact Ha|].
        intros H. now elim H.
      * destruct (uniform_kind inSep (x :: cur)) as [K R]; [discriminate | exact Hu |].
        rewrite Et in *.
        change (List.concat ((x :: cur) :: t :: rest))
          with ((x :: cur) ++ List.concat (t :: rest)).
        rewrite Hc.
        split; [reflexivity|]. split; [now constructor|]. split.
        -- split; [|exact Ha]. rewrite K, Kt. congruence.
        -- intros _. now exists (x :: cur), (t :: rest).
Qed.

Section SearchFacts.

Variable transliterate : jsstring -> Outcome.

Lemma firstThrowing_none (toks : list jsstring) :
  firstThrowing transliterate toks = None <-> Forall (passes transliterate) toks.
Proof.
  induction toks as [|t toks IH]; simpl; [split; auto|].
  destruct (isPureSeparator t) eqn:Ep.
  - rewrite IH. split; intros H; [constructor; [now left | exact H] | now inversion H].
  - destruct (transliterate t) as [r|m] eqn:Et.
    + rewrite IH. split; intros H; [constructor; [right; now exists r | exact H] | now inversion H].
    + split; [discriminate|]. intros H. inversion H as [|? ? [Hp|[r Hr]] _]; congruence.
Qed.

Lemma firstThrowing_some (toks : list jsstring) (tok : jsstring) :
  firstThrowing transliterate toks = Some tok <->
  exists pre post, toks = pre ++ tok :: post
    /\ Forall (passes transliterate) pre
    /\ isPureSeparator tok = false
    /\ exists m, transliterate tok = Throws m.
Proof.
  induction toks as [|t toks IH]; simpl.
  - split; [discriminate|]. intros (pre & post & E & _). now destruct pre.
  - assert (Hskip : passes transliterate t ->
      ((exists pre post, t :: toks = pre ++ tok :: post /\ Forall (passes transliterate) pre
          /\ isPureSeparator tok = false /\ exists m, transliterate tok = Throws m)
       <-> (exists pre post, toks = pre ++ tok :: post /\ Forall (passes transliterate) pre
          /\ isPureSeparator tok = false /\ exists m, transliterate tok = Throws m))).
    { intros Hp. split.
      - intros (pre & post & E & Hpre & Hk & m & Hm).
        destruct pre as [|p pre]; simpl in E; inversion E; subst.
        + destruct Hp as [Hp|[r Hr]]; congruence.
        + inversion Hpre; subst. now exists pre, post; eauto.
      - intros (pre & post & E & Hpre & Hk & Hm).
        exists (t :: pre), post. subst. repeat split; auto. }
    destruct (isPureSeparator t) eqn:Ep.
    + rewrite IH. symmetry. apply Hskip. now left.
    + destruct (transliterate t) as [r|m] eqn:Et.
      * rewrite IH. symmetry. apply Hskip. right. now exists r.
      * split.
        -- intros E. inversion E; subst. exists [], toks. repeat split; auto. now exists m.
        -- intros (pre & post & E & Hpre & Hk & m' & Hm').
           destruct pre as [|p pre]; simpl in E; inversion E; subst; [reflexivity|].
           inversion Hpre as [|? ? [Hp|[r Hr]] _]; congruence.
Qed.

End SearchFacts.

(** C7: the offending-token search cuts the field into its longest runs of
    separator characters (white space, maqaf, hyphen-minus, U+2010 to
    U+2015) and of other characters, passes over the separator runs, and
    reports the first remaining token, from left to right, that the library
    itself rejects; when the library accepts every such token it reports
    nothing.  In debug mode the diagnostics of a failing field carry that
    token, when there is one, between the error line and the row excerpt. *)
Theorem offending_token_search (transliterate : jsstring -> Outcome) (heb : jsstring) :
  let toks := filter truthy (splitKeepingSeparators heb) in
  (List.concat toks = heb /\ Forall isRun toks /\ alternate toks)
  /\ (forall tok,
        findOffendingWord transliterate heb = Some tok <->
        exists pre post, toks = pre ++ tok :: post
          /\ Forall (passes transliterate) pre
          /\ isPureSeparator tok = false
          /\ exists m, transliterate tok = Throws m)
  /\ (findOffendingWord transliterate heb = None <->
      Forall (passes transliterate) toks)
  /\ (forall cfg l line cells message w c h,
        debug cfg = true -> heb = c :: h ->
        errChannel (Mjs.report transliterate cfg l line cells (Some heb) message w)
        = errChannel w
            ++ [Mjs.debugLine l cells message]
            ++ match findOffendingWord transliterate heb with
               | Some tok => [lit "Offending token: " ++ tok]
               | None => []
               end
            ++ [Mjs.excerptLine line]).
Proof.
  cbn zeta.
  destruct (splitRuns_tokens heb [] false eq_refl) as (Hc & Hr & Ha & _).
  split; [now repeat split|]. split; [|split].
  - intros tok. apply firstThrowing_some.
  - apply firstThrowing_none.
  - intros cfg l line cells message w c h Hd ->. unfold Mjs.report. rewrite Hd.
    destruct (findOffendingWord transliterate (c :: h)) as [tok|] eqn:Ef.
    + apply firstThrowing_some in Ef as (pre & post & E & _).
      assert (Hin : In tok (filter truthy (splitKeepingSeparators (c :: h))))
        by (rewrite E; apply in_elt).
      apply filter_In in Hin as [_ Ht].
      destruct tok as [|x tok]; [discriminate|].
      simpl. now rewrite <- !app_assoc.
    + simpl. now rewrite <- !app_assoc.
Qed.

Lemma offending_token_search_witness :
  findOffendingWord sampleTransliterate (lit "ab cXd-eX") = Some (lit "cXd")
  /\ findOffendingWord sampleTransliterate (lit "ab cd") = None.
Proof.
  pose proof (offending_token_search sampleTransliterate (lit "ab cXd-eX")) as (_ & Hs & _).
  pose proof (offending_token_search sampleTransliterate (lit "ab cd")) as (_ & _ & Hn & _).
  split.
  - apply Hs. exists [lit "ab"; lit " "], [lit "-"; lit "eX"].
    split; [reflexivity|]. split; [|split; [reflexivity | now exists (lit "unsupported character")]].
    constructor; [right; now exists (lit "/ab/") | constructor; [now left | constructor]].
  - apply Hn. constructor; [right; now exists (lit "/ab/")|].
    constructor; [now left|]. constructor; [right; now exists (lit "/cd/") | constructor].
Defined.

(** ** The header *)

Lemma indexOfFrom_range (x : jsstring) (arr : list jsstring) (i : Z) :
  (0 <= i)%Z ->
  (~ In x arr /\ indexOfFrom x arr i = (-1)%Z)
  \/ (In x arr /\ (i <= indexOfFrom x arr i)%Z).
Proof.
  revert i. induction arr as [|y arr IH]; intros i Hi; simpl.
  - left. split; auto.
  - destruct (jsstring_eqb y x) eqn:E.
    + apply jsstring_eqb_eq in E. right. split; [now left | lia].
    + apply jsstring_eqb_neq in E.
      destruct (IH (i + 1)%Z ltac:(lia)) as [[Hn Hv]|[Hin Hv]].
      * left. split; [|exact Hv]. intros [H|H]; auto.
      * right. split; [now right | lia].
Qed.

Lemma indexOf_absent (arr : list jsstring) (x : jsstring) :
  ~ In x arr -> (indexOf arr x =? -1)%Z = true.
Proof.
  intros H. unfold indexOf.
  destruct (indexOfFrom_range x arr 0%Z ltac:(lia)) as [[_ Hv]|[Hin _]]; [|contradiction].
  now rewrite Hv.
Qed.

Lemma indexOf_present (arr : list jsstring) (x : jsstring) :
  In x arr -> (indexOf arr x =? -1)%Z = false.
Proof.
  intros H. unfold indexOf.
  destruct (indexOfFrom_range x arr 0%Z ltac:(lia)) as [[Hn _]|[_ Hv]]; [contradiction|].
  apply Z.eqb_neq. lia.
Qed.

Lemma header_cells_joined (h : jsstring) :
  joinCsvLine (parseCsvLine (stripBOM h) PIPE ++ [lit "tiberian"]) PIPE ++ newline
  = headerOut h.
Proof.
  unfold headerOut, parseCsvLine.
  set (cleaned := dropTrailingCR (stripBOM h)).
  assert (Hp : Forall (fun c => includes PIPE c = false) (split PIPE cleaned ++ [lit "tiberian"])).
  { apply Forall_app. split; [apply split_pieces_plain | repeat constructor]. }
  rewrite (joinCsvLine_plain _ _ Hp).
  destruct (split_cons_shape PIPE cleaned) as [p [ps E]].
  rewrite join_snoc by (rewrite E; discriminate).
  rewrite join_split. now rewrite <- app_assoc.
Qed.

Section Steps.

Variable transliterate : jsstring -> Outcome.
Variable cfg : Config.

(** *** One pass of the error-policy script *)

Lemma mjs_header_missing (h : jsstring) (l : Mjs.Locals) (w : World) :
  Mjs.headerProcessed l = false ->
  ~ In (lit "vocalized") (parseCsvLine (stripBOM h) PIPE) ->
  exists l', Mjs.iteration transliterate cfg h l w = (l', consoleError headerError w, ExitNow 1).
Proof.
  intros Hh Hn. unfold Mjs.iteration. cbn [Mjs.headerProcessed]. rewrite Hh. cbn [negb].
  unfold Mjs.delimiter. rewrite (indexOf_absent _ _ Hn). eauto.
Qed.

Lemma mjs_header_found (h : jsstring) (l : Mjs.Locals) (w : World) :
  Mjs.headerProcessed l = false ->
  In (lit "vocalized") (parseCsvLine (stripBOM h) PIPE) ->
  Mjs.iteration transliterate cfg h l w
  = (Mjs.mkLocals true (indexOf (parseCsvLine (stripBOM h) PIPE) (lit "vocalized"))
       (parseCsvLine (stripBOM h) PIPE) (Mjs.lineNumber l + 1),
     write (headerOut h) w, Next).
Proof.
  intros Hh Hin. unfold Mjs.iteration. cbn [Mjs.headerProcessed]. rewrite Hh. cbn [negb].
  unfold Mjs.delimiter. rewrite (indexOf_present _ _ Hin).
  cbn [Mjs.lineNumber]. now rewrite header_cells_joined.
Qed.

Lemma mjs_blank (raw : jsstring) (l : Mjs.Locals) (w : World) :
  Mjs.headerProcessed l = true -> isBlank raw = true ->
  Mjs.iteration transliterate cfg raw l w = (bump l, w, Next).
Proof.
  intros Hh Hb. unfold Mjs.iteration, bump. cbn [Mjs.headerProcessed]. rewrite Hh.
  cbn [negb]. unfold isBlank in Hb. rewrite Hb. reflexivity.
Qed.

Lemma mjs_row (raw : jsstring) (l : Mjs.Locals) (w : World) :
  Mjs.headerProcessed l = true -> isBlank raw = false ->
  let cells := rowCells (List.length (Mjs.headerCells l)) raw in
  let heb := at_index cells (Mjs.vocalizedIdx l) in
  Mjs.iteration transliterate cfg raw l w
  = match tiberianOf transliterate heb with
    | Returns tib => (bump l, write (outputRow cells tib) w, Next)
    | Throws message =>
        let w1 := Mjs.report transliterate cfg (bump l) (stripBOM raw) cells heb message w in
        if skipErrors cfg then (bump l, write (outputRow cells []) w1, Next)
        else
          let (settled, w2) := promptToContinue promptText w1 in
          match settled with
          | None => (bump l, w2, Stalled)
          | Some proceed =>
              if proceed then (bump l, write (outputRow cells []) w2, Next)
              else (bump l, setExitCode 1 w2, Break)
          end
    end.
Proof.
  intros Hh Hb. unfold Mjs.iteration, bump. cbn [Mjs.headerProcessed]. rewrite Hh.
  cbn [negb]. unfold isBlank in Hb. rewrite Hb. cbn zeta.
  unfold rowCells, outputRow, Mjs.delimiter, promptText.
  cbn [Mjs.headerCells Mjs.vocalizedIdx].
  destruct (tiberianOf transliterate _); [reflexivity|].
  destruct (skipErrors cfg); [reflexivity|].
  destruct (promptToContinue _ _) as [[[|]|] w2]; reflexivity.
Qed.

(** *** One pass of the plain script *)

Lemma ts_header_missing (h : jsstring) (l : Ts.Locals) (w : World) :
  Ts.headerProcessed l = false ->
  ~ In (lit "vocalized") (parseCsvLine (stripBOM h) PIPE) ->
  exists l', Ts.iteration transliterate h l w = (l', consoleError headerError w, ExitNow 1).
Proof.
  intros Hh Hn. unfold Ts.iteration. rewrite Hh. cbn [negb].
  unfold Ts.delimiter. rewrite (indexOf_absent _ _ Hn). eauto.
Qed.

Lemma ts_header_found (h : jsstring) (l : Ts.Locals) (w : World) :
  Ts.headerProcessed l = false ->
  In (lit "vocalized") (parseCsvLine (stripBOM h) PIPE) ->
  Ts.iteration transliterate h l w
  = (Ts.mkLocals true (indexOf (parseCsvLine (stripBOM h) PIPE) (lit "vocalized"))
       (parseCsvLine (stripBOM h) PIPE),
     write (headerOut h) w, Next).
Proof.
  intros Hh Hin. unfold Ts.iteration. rewrite Hh. cbn [negb].
  unfold Ts.delimiter. rewrite (indexOf_present _ _ Hin).
  cbn zeta. now rewrite header_cells_joined.
Qed.

Lemma ts_blank (raw : jsstring) (l : Ts.Locals) (w : World) :
  Ts.headerProcessed l = true -> isBlank raw = true ->
  Ts.iteration transliterate raw l w = (l, w, Next).
Proof.
  intros Hh Hb. unfold Ts.iteration. rewrite Hh. cbn [negb].
  unfold isBlank in Hb. now rewrite Hb.
Qed.

Lemma ts_row (raw : jsstring) (l : Ts.Locals) (w : World) :
  Ts.headerProcessed l = true -> isBlank raw = false ->
  let cells := rowCells (List.length (Ts.headerCells l)) raw in
  let heb := at_index cells (Ts.vocalizedIdx l) in
  Ts.iteration transliterate raw l w
  = match tiberianOf transliterate heb with
    | Returns tib => (l, write (outputRow cells tib) w, Next)
    | Throws message => (l, w, Thrown message)
    end.
Proof.
  intros Hh Hb. unfold Ts.iteration. rewrite Hh. cbn [negb].
  unfold isBlank in Hb. rewrite Hb. reflexivity.
Qed.

End Steps.

(** ** What each operation leaves untouched *)

Section Frames.

Variable transliterate : jsstring -> Outcome.
Variable cfg : Config.

Lemma report_frame (l : Mjs.Locals) (line : jsstring) (cells : list jsstring)
    (heb : option jsstring) (message : jsstring) (w : World) :
  let w' := Mjs.report transliterate cfg l line cells heb message w in
  outputFile w' = outputFile w /\ exitCode w' = exitCode w
  /\ operator w' = operator w /\ outChannel w' = outChannel w
  /\ exists more,
       errChannel w' = errChannel w
         ++ headline cfg (Mjs.lineNumber l) (Mjs.location l cells) message :: more.
Proof.
  unfold Mjs.report, headline, Mjs.debugLine, Mjs.errorLine.
  destruct (debug cfg); cbn zeta.
  - destruct (match heb with Some (c :: h) => _ | _ => None end) as [[|x tok]|];
      unfold consoleError; cbn [errChannel outputFile exitCode operator outChannel];
      repeat split; auto; rewrite <- ?app_assoc; cbn [app]; eauto.
  - unfold consoleError; cbn [errChannel outputFile exitCode operator outChannel].
    repeat split; auto. eauto.
Qed.

Lemma question_frame (text : jsstring) (w : World) :
  let w' := snd (question text w) in
  outputFile w' = outputFile w /\ exitCode w' = exitCode w
  /\ errChannel w' = errChannel w.
Proof.
  unfold question. simpl. destruct (operator w); simpl; auto.
Qed.


Lemma prompt_question (message : jsstring) (w : World) :
  promptToContinue message w
  = (match fst (question (message ++ lit " Continue? (y/N): ") w) with
     | Some a => Some (affirmative (Some a))
     | None => None
     end,
     snd (question (message ++ lit " Continue? (y/N): ") w)).
Proof.
  unfold promptToContinue. now destruct (question _ w).
Qed.

Lemma prompt_frame (message : jsstring) (w : World) :
  let w' := snd (promptToContinue message w) in
  outputFile w' = outputFile w /\ exitCode w' = exitCode w
  /\ errChannel w' = errChannel w.
Proof.
  rewrite prompt_question. apply question_frame.
Qed.

(** A row whose field the library rejects, under each error policy. *)
Lemma mjs_rejected (raw : jsstring) (l : Mjs.Locals) (w : World) (message : jsstring) :
  Mjs.headerProcessed l = true ->
  isBlank raw = false ->
  let cells := rowCells (List.length (Mjs.headerCells l)) raw in
  let heb := fieldOf (List.length (Mjs.headerCells l)) (Mjs.vocalizedIdx l) raw in
  tiberianOf transliterate heb = Throws message ->
  let w1 := Mjs.report transliterate cfg (bump l) (stripBOM raw) cells heb message w in
  let asked := question (promptText ++ lit " Continue? (y/N): ") w1 in
  Mjs.iteration transliterate cfg raw l w
  = if skipErrors cfg then (bump l, write (outputRow cells []) w1, Next)
    else match fst asked with
         | None => (bump l, snd asked, Stalled)
         | Some a =>
             if affirmative (Some a)
             then (bump l, write (outputRow cells []) (snd asked), Next)
             else (bump l, setExitCode 1 (snd asked), Break)
         end.
Proof.
  intros Hh Hb cells heb Ht w1 asked.
  rewrite (mjs_row transliterate cfg raw l w Hh Hb). cbn zeta.
  subst asked w1 heb cells. unfold fieldOf in *. rewrite Ht.
  destruct (skipErrors cfg); [reflexivity|].
  rewrite prompt_question.
  destruct (fst (question _ _)) as [a|]; [|reflexivity].
  destruct (affirmative (Some a)); reflexivity.
Qed.

(** What one pass of the error-policy script can do to the world. *)
Lemma mjs_iteration_inv (raw : jsstring) (l : Mjs.Locals) (w : World) :
  let r := Mjs.iteration transliterate cfg raw l w in
  let l' := fst (fst r) in
  let w' := snd (fst r) in
  (exists more, outputFile w' = outputFile w ++ more)
  /\ match snd r with
     | Next => exitCode w' = exitCode w /\ Mjs.headerProcessed l' = true
               /\ Mjs.lineNumber l' = Mjs.lineNumber l + 1
     | Break => exitCode w' = Some 1 /\ outputFile w' = outputFile w
                /\ skipErrors cfg = false
     | ExitNow c => c = 1 /\ outputFile w' = outputFile w
                    /\ Mjs.headerProcessed l = false
     | Thrown _ => False
     | Stalled => exitCode w' = exitCode w /\ outputFile w' = outputFile w
                  /\ skipErrors cfg = false
     end.
Proof.
  cbn zeta. destruct (Mjs.headerProcessed l) eqn:Hh.
  - destruct (isBlank raw) eqn:Hb.
    + rewrite (mjs_blank transliterate cfg raw l w Hh Hb). simpl.
      split; [exists []; now rewrite app_nil_r | auto].
    + rewrite (mjs_row transliterate cfg raw l w Hh Hb). cbn zeta.
      set (cells := rowCells _ raw). set (heb := at_index cells _).
      destruct (tiberianOf transliterate heb) as [tib|message].
      * simpl. split; [eauto | auto].
      * destruct (report_frame (bump l) (stripBOM raw) cells heb message w)
          as (Ho & Hx & _).
        set (w1 := Mjs.report _ _ _ _ _ _ _ _) in *.
        destruct (skipErrors cfg) eqn:Hs.
        -- simpl. rewrite Ho. split; [eauto | auto].
        -- destruct (prompt_frame promptText w1) as (Ho2 & Hx2 & _).
           destruct (promptToContinue promptText w1) as [[proceed|] w2].
           ++ simpl in Ho2, Hx2. destruct proceed; simpl.
              ** rewrite Ho2, Ho, Hx2, Hx. split; [eauto | auto].
              ** rewrite Ho2, Ho. split; [exists []; now rewrite app_nil_r | auto].
           ++ simpl in Ho2, Hx2 |- *. rewrite Ho2, Ho, Hx2, Hx.
              split; [exists []; now rewrite app_nil_r | auto].
  - destruct (in_dec (list_eq_dec N.eq_dec) (lit "vocalized")
                (parseCsvLine (stripBOM raw) PIPE)) as [Hin|Hn].
    + rewrite (mjs_header_found transliterate cfg raw l w Hh Hin). simpl.
      split; [eauto | auto].
    + destruct (mjs_header_missing transliterate cfg raw l w Hh Hn) as [l' E].
      rewrite E. simpl. split; [exists []; now rewrite app_nil_r | auto].
Qed.

Lemma ts_iteration_inv (raw : jsstring) (l : Ts.Locals) (w : World) :
  let r := Ts.iteration transliterate raw l w in
  let l' := fst (fst r) in
  let w' := snd (fst r) in
  (exists more, outputFile w' = outputFile w ++ more)
  /\ (snd r = Next -> Ts.headerProcessed l' = true).
Proof.
  cbn zeta. destruct (Ts.headerProcessed l) eqn:Hh.
  - destruct (isBlank raw) eqn:Hb.
    + rewrite (ts_blank transliterate raw l w Hh Hb). simpl.
      split; [exists []; now rewrite app_nil_r | auto].
    + rewrite (ts_row transliterate raw l w Hh Hb). cbn zeta.
      destruct (tiberianOf transliterate _) as [tib|message]; simpl.
      * split; [eauto | auto].
      * split; [exists []; now rewrite app_nil_r | discriminate].
  - destruct (in_dec (list_eq_dec N.eq_dec) (lit "vocalized")
                (parseCsvLine (stripBOM raw) PIPE)) as [Hin|Hn].
    + rewrite (ts_header_found transliterate raw l w Hh Hin). simpl.
      split; [eauto | auto].
    + destruct (ts_header_missing transliterate raw l w Hh Hn) as [l' E].
      rewrite E. simpl. split; [exists []; now rewrite app_nil_r | discriminate].
Qed.

End Frames.

(** ** The loop *)

Section Loops.

Variable transliterate : jsstring -> Outcome.
Variable cfg : Config.

Lemma mjs_loop_app (pre rest : list jsstring) (l : Mjs.Locals) (w : World) :
  Mjs.forEachLine transliterate cfg (pre ++ rest) l w
  = match Mjs.forEachLine transliterate cfg pre l w with
    | (l', w', Next) => Mjs.forEachLine transliterate cfg rest l' w'
    | stopped => stopped
    end.
Proof.
  revert l w. induction pre as [|raw pre IH]; intros l w; [reflexivity|].
  simpl. destruct (Mjs.iteration transliterate cfg raw l w) as [[l1 w1] [| | | |]];
    auto.
Qed.

Lemma ts_loop_app (pre rest : list jsstring) (l : Ts.Locals) (w : World) :
  Ts.forEachLine transliterate (pre ++ rest) l w
  = match Ts.forEachLine transliterate pre l w with
    | (l', w', Next) => Ts.forEachLine transliterate rest l' w'
    | stopped => stopped
    end.
Proof.
  revert l w. induction pre as [|raw pre IH]; intros l w; [reflexivity|].
  simpl. destruct (Ts.iteration transliterate raw l w) as [[l1 w1] [| | | |]]; auto.
Qed.

(** What the whole loop of the error-policy script can do to the world. *)
Lemma mjs_loop_inv (lines : list jsstring) (l : Mjs.Locals) (w : World) :
  let r := Mjs.forEachLine transliterate cfg lines l w in
  let l' := fst (fst r) in
  let w' := snd (fst r) in
  (exists more, outputFile w' = outputFile w ++ more)
  /\ match snd r with
     | Next => exitCode w' = exitCode w
               /\ Mjs.lineNumber l' = Mjs.lineNumber l + N.of_nat (List.length lines)
               /\ (Mjs.headerProcessed l = true \/ lines <> [] ->
                   Mjs.headerProcessed l' = true)
     | Break => exitCode w' = Some 1 /\ skipErrors cfg = false
     | ExitNow c => c = 1 /\ outputFile w' = outputFile w
                    /\ Mjs.headerProcessed l = false
     | Thrown _ => False
     | Stalled => exitCode w' = exitCode w /\ skipErrors cfg = false
     end.
Proof.
  cbn zeta. revert l w. induction lines as [|raw lines IH]; intros l w.
  - simpl. split; [exists []; now rewrite app_nil_r|].
    split; [reflexivity|]. split; [lia | intros [H|H]; congruence].
  - pose proof (mjs_iteration_inv transliterate cfg raw l w) as Hit. cbn zeta in Hit.
    cbn [Mjs.forEachLine].
    destruct (Mjs.iteration transliterate cfg raw l w) as [[l1 w1] c1].
    cbn [fst snd] in Hit. destruct Hit as [[m1 Hm1] Hc1].
    destruct c1; cbn [fst snd].
    + destruct Hc1 as (Hx1 & Hh1 & Hn1).
      specialize (IH l1 w1).
      destruct (Mjs.forEachLine transliterate cfg lines l1 w1) as [[l2 w2] c2].
      cbn [fst snd] in IH |- *. destruct IH as [[m2 Hm2] Hc2].
      split; [exists (m1 ++ m2); now rewrite Hm2, Hm1, app_assoc|].
      destruct c2.
      * destruct Hc2 as (Hx2 & Hn2 & Hh2). split; [congruence|]. split.
        -- rewrite Hn2, Hn1. cbn [List.length]. lia.
        -- intros _. apply Hh2. now left.
      * exact Hc2.
      * destruct Hc2 as (_ & _ & Hf). congruence.
      * exact Hc2.
      * destruct Hc2 as (Hx2 & Hs2). split; congruence.
    + split; [eauto|]. now destruct Hc1 as (? & _ & ?).
    + split; [eauto | exact Hc1].
    + contradiction.
    + split; [eauto|]. now destruct Hc1 as (? & _ & ?).
Qed.

Lemma ts_loop_inv (lines : list jsstring) (l : Ts.Locals) (w : World) :
  let r := Ts.forEachLine transliterate lines l w in
  exists more, outputFile (snd (fst r)) = outputFile w ++ more.
Proof.
  cbn zeta. revert l w. induction lines as [|raw lines IH]; intros l w.
  - exists []. simpl. now rewrite app_nil_r.
  - destruct (ts_iteration_inv transliterate raw l w) as [[m1 Hm1] _].
    cbn [Ts.forEachLine].
    destruct (Ts.iteration transliterate raw l w) as [[l1 w1] c1].
    cbn [fst snd] in Hm1. destruct c1; cbn [fst snd]; eauto.
    destruct (IH l1 w1) as [m2 Hm2].
    exists (m1 ++ m2). now rewrite Hm2, Hm1, app_assoc.
Qed.

Lemma writeAll_snoc (chunks : list jsstring) (chunk : jsstring) (w : World) :
  writeAll (chunks ++ [chunk]) w = write chunk (writeAll chunks w).
Proof. unfold writeAll. now rewrite fold_left_app. Qed.

Lemma writeAll_cons (chunks : list jsstring) (chunk : jsstring) (w : World) :
  writeAll (chunk :: chunks) w = writeAll chunks (write chunk w).
Proof. reflexivity. Qed.

Lemma writeAll_output (chunks : list jsstring) (w : World) :
  outputFile (writeAll chunks w) = outputFile w ++ chunks.
Proof.
  revert w. induction chunks as [|c chunks IH]; intros w.
  - simpl. now rewrite app_nil_r.
  - rewrite writeAll_cons, IH. simpl. now rewrite <- app_assoc.
Qed.

Lemma rowCells_plain (width : nat) (raw : jsstring) :
  rowCells width raw <> []
  /\ Forall (fun c => includes PIPE c = false) (rowCells width raw).
Proof.
  unfold rowCells, padTo, parseCsvLine. split.
  - destruct (split_cons_shape PIPE (dropTrailingCR (stripBOM raw))) as [p [ps E]].
    rewrite E. discriminate.
  - apply Forall_app. split; [apply split_pieces_plain|].
    apply Forall_forall. intros c Hc. apply repeat_spec in Hc. now subst.
Qed.

Lemma outputRow_text (width : nat) (raw t : jsstring) :
  includes PIPE t = false ->
  outputRow (rowCells width raw) t
  = join PIPE (rowCells width raw) ++ PIPE :: t ++ newline.
Proof.
  intros Ht. destruct (rowCells_plain width raw) as [Hne Hp]. unfold outputRow.
  rewrite joinCsvLine_plain
    by (apply Forall_app; split; [exact Hp | now repeat constructor]).
  rewrite join_snoc by exact Hne. now rewrite <- app_assoc.
Qed.

(** A body without rejected rows: every row that is not blank is written,
    in the order of the input. *)
Lemma mjs_loop_accepted (hdr : list jsstring) (idx : Z) (body : list jsstring) :
  Forall (accepted transliterate (List.length hdr) idx) body ->
  forall n w,
    Mjs.forEachLine transliterate cfg body (Mjs.mkLocals true idx hdr n) w
    = (Mjs.mkLocals true idx hdr (n + N.of_nat (List.length body)),
       writeAll (map (rowWritten transliterate (List.length hdr) idx)
                   (filter (fun raw => negb (isBlank raw)) body)) w,
       Next).
Proof.
  induction 1 as [|raw body Hraw Hbody IH]; intros n w.
  - simpl. now rewrite N.add_0_r.
  - cbn [Mjs.forEachLine filter]. destruct (isBlank raw) eqn:Hb.
    + rewrite (mjs_blank transliterate cfg raw (Mjs.mkLocals true idx hdr n) w eq_refl Hb). unfold bump.
      cbn [Mjs.headerProcessed Mjs.vocalizedIdx Mjs.headerCells Mjs.lineNumber negb].
      rewrite IH. do 3 f_equal. cbn [List.length]. lia.
    + destruct Hraw as [Hblank|[t Ht]]; [congruence|].
      rewrite (mjs_row transliterate cfg raw (Mjs.mkLocals true idx hdr n) w eq_refl Hb). cbn zeta.
      cbn [Mjs.headerProcessed Mjs.vocalizedIdx Mjs.headerCells Mjs.lineNumber negb map].
      assert (Hrw : rowWritten transliterate (List.length hdr) idx raw
                    = outputRow (rowCells (List.length hdr) raw) t)
        by (unfold rowWritten; now rewrite Ht).
      unfold fieldOf in Ht. rewrite Ht. unfold bump.
      cbn [Mjs.headerProcessed Mjs.vocalizedIdx Mjs.headerCells Mjs.lineNumber].
      rewrite IH, writeAll_cons, Hrw. do 3 f_equal. cbn [List.length]. lia.
Qed.

Lemma ts_loop_accepted (hdr : list jsstring) (idx : Z) (body : list jsstring) :
  Forall (accepted transliterate (List.length hdr) idx) body ->
  forall w,
    Ts.forEachLine transliterate body (Ts.mkLocals true idx hdr) w
    = (Ts.mkLocals true idx hdr,
       writeAll (map (rowWritten transliterate (List.length hdr) idx)
                   (filter (fun raw => negb (isBlank raw)) body)) w,
       Next).
Proof.
  induction 1 as [|raw body Hraw Hbody IH]; intros w; [reflexivity|].
  cbn [Ts.forEachLine filter]. destruct (isBlank raw) eqn:Hb.
  - rewrite (ts_blank transliterate raw (Ts.mkLocals true idx hdr) w eq_refl Hb). cbn [negb]. now rewrite IH.
  - destruct Hraw as [Hblank|[t Ht]]; [congruence|].
    rewrite (ts_row transliterate raw (Ts.mkLocals true idx hdr) w eq_refl Hb). cbn zeta.
    cbn [Ts.headerProcessed Ts.vocalizedIdx Ts.headerCells negb map].
    assert (Hrw : rowWritten transliterate (List.length hdr) idx raw
                  = outputRow (rowCells (List.length hdr) raw) t)
      by (unfold rowWritten; now rewrite Ht).
    unfold fieldOf in Ht. rewrite Ht.
    now rewrite IH, writeAll_cons, Hrw.
Qed.

End Loops.

(** ** The claims about whole runs *)

(** C4, as stated, fails: in the header book|<U+FEFF>vocalized no field
    is exactly [vocalized] (the second one starts with U+FEFF), yet both
    scripts remove every U+FEFF from the line before they look for the
    column, find it, and go on: rows are written and the run ends with
    status 0. *)
Lemma marked_header_column_found :
  let h := lit "book|" ++ BOM :: lit "vocalized" in
  let mjs := Mjs.main sampleTransliterate (sampleConfig false false)
               (Some [h; lit "Gen|ab"]) (initialWorld []) in
  let ts := Ts.main sampleTransliterate (sampleConfig false false)
              (Some [h; lit "Gen|ab"]) (initialWorld []) in
  ~ In (lit "vocalized") (parseCsvLine h PIPE)
  /\ parseCsvLine h PIPE = [lit "book"; BOM :: lit "vocalized"]
  /\ mjs = ts
  /\ snd mjs = Next
  /\ exitStatus mjs = Some 0
  /\ outputFile (fst mjs)
     = [lit "book|vocalized|tiberian" ++ newline; lit "Gen|ab|/ab/" ++ newline].
Proof.
  cbn zeta. split; [|repeat split].
  intros [H|[H|[]]]; discriminate.
Qed.

(** C4 (amended): when the header line, once every U+FEFF is removed and a
    final carriage return is dropped, has no field that is exactly
    [vocalized], either script stops at once through [process.exit(1)]: the
    only thing it has done is to report the missing column on the error
    channel, nothing has been written to the output, and the lines after
    the header are not looked at. *)
Theorem missing_column_stops (transliterate : jsstring -> Outcome) (cfg : Config)
    (h : jsstring) (body answers : list jsstring) :
  ~ In (lit "vocalized") (parseCsvLine (stripBOM h) PIPE) ->
  let stopped := (consoleError headerError (initialWorld answers), ExitNow 1) in
  Mjs.main transliterate cfg (Some (h :: body)) (initialWorld answers) = stopped
  /\ Ts.main transliterate cfg (Some (h :: body)) (initialWorld answers) = stopped
  /\ outputFile (fst stopped) = []
  /\ exitStatus stopped = Some 1.
Proof.
  intros Hn. cbn zeta. repeat split.
  - unfold Mjs.main. cbn [Mjs.forEachLine].
    destruct (mjs_header_missing transliterate cfg h Mjs.initialLocals
                (initialWorld answers) eq_refl Hn) as [l' E].
    now rewrite E.
  - unfold Ts.main. cbn [Ts.forEachLine].
    destruct (ts_header_missing transliterate h Ts.initialLocals
                (initialWorld answers) eq_refl Hn) as [l' E].
    now rewrite E.
Qed.

Lemma missing_column_stops_witness :
  Mjs.main sampleTransliterate (sampleConfig false true)
    (Some [lit "book| vocalized|Vocalized"; lit "Gen|ab|cd"]) (initialWorld [])
  = (consoleError headerError (initialWorld []), ExitNow 1)
  /\ Ts.main sampleTransliterate (sampleConfig false true)
       (Some [lit "book| vocalized|Vocalized"; lit "Gen|ab|cd"]) (initialWorld [])
     = (consoleError headerError (initialWorld []), ExitNow 1).
Proof.
  destruct (missing_column_stops sampleTransliterate (sampleConfig false true)
              (lit "book| vocalized|Vocalized") [lit "Gen|ab|cd"] []) as (Hm & Ht & _).
  - vm_compute. intros [H|[H|[H|[]]]]; discriminate.
  - now split.
Defined.

(** C6: when the header has a [vocalized] field, the first line either
    script writes is the header (without byte-order marks and final carriage
    return) followed by the delimiter and the column name [tiberian],
    whatever the later rows hold and whatever the operator answers. *)
Theorem header_line_first (transliterate : jsstring -> Outcome) (cfg : Config)
    (h : jsstring) (body answers : list jsstring) :
  In (lit "vocalized") (parseCsvLine (stripBOM h) PIPE) ->
  headerOut h
    = joinCsvLine (parseCsvLine (stripBOM h) PIPE ++ [lit "tiberian"]) PIPE ++ newline
  /\ hd_error (outputFile (fst (Mjs.main transliterate cfg (Some (h :: body))
                                  (initialWorld answers))))
     = Some (headerOut h)
  /\ hd_error (outputFile (fst (Ts.main transliterate cfg (Some (h :: body))
                                  (initialWorld answers))))
     = Some (headerOut h).
Proof.
  intros Hin. split; [symmetry; apply header_cells_joined|]. split.
  - unfold Mjs.main. cbn [Mjs.forEachLine].
    rewrite (mjs_header_found transliterate cfg h Mjs.initialLocals
               (initialWorld answers) eq_refl Hin).
    match goal with |- context [Mjs.forEachLine _ _ body ?l ?w] =>
      destruct (mjs_loop_inv transliterate cfg body l w) as [[more Hm] _];
      destruct (Mjs.forEachLine transliterate cfg body l w) as [[l' w'] c]
    end.
    cbn [fst snd] in Hm.
    assert (Hhd : hd_error (outputFile w') = Some (headerOut h)) by now rewrite Hm.
    destruct c; cbn [fst]; auto.
    + unfold Mjs.finish. destruct (exitCode w') as [k|]; [destruct (negb (k =? 0))|]; exact Hhd.
    + unfold Mjs.finish. destruct (exitCode w') as [k|]; [destruct (negb (k =? 0))|]; exact Hhd.
  - unfold Ts.main. cbn [Ts.forEachLine].
    rewrite (ts_header_found transliterate h Ts.initialLocals
               (initialWorld answers) eq_refl Hin).
    match goal with |- context [Ts.forEachLine _ body ?l ?w] =>
      destruct (ts_loop_inv transliterate body l w) as [more Hm];
      destruct (Ts.forEachLine transliterate body l w) as [[l' w'] c]
    end.
    cbn [fst snd] in Hm.
    assert (Hhd : hd_error (outputFile w') = Some (headerOut h)) by now rewrite Hm.
    destruct c; cbn [fst]; auto.
Qed.

Lemma header_line_first_witness :
  hd_error (outputFile (fst (Mjs.main sampleTransliterate (sampleConfig false false)
              (Some [BOM :: lit "book|vocalized" ++ [CR]; lit "Gen|aXb"; lit "Exo|cd"])
              (initialWorld []))))
  = Some (lit "book|vocalized|tiberian" ++ newline).
Proof.
  destruct (header_line_first sampleTransliterate (sampleConfig false false)
              (BOM :: lit "book|vocalized" ++ [CR]) [lit "Gen|aXb"; lit "Exo|cd"] [])
    as (_ & Hm & _).
  - vm_compute. right. now left.
  - exact Hm.
Defined.

(** C1: a row that is not blank and whose [vocalized] field is accepted by
    the library (or is empty, in which case the library is not called and
    the result is the empty string) is written as its own cells, padded with
    empty cells to the width of the header, followed by the result as one
    more cell, and the loop goes on with the next line.  When the result
    holds no delimiter the line written is the text of those cells, the
    delimiter and the result.  Hence, in a file
    without rejected rows, the output is the header line followed by those
    rows in the order of the input.  Both scripts do so. *)
Theorem rows_written_in_order (transliterate : jsstring -> Outcome) (cfg : Config) :
  (forall raw hdr idx t,
      isBlank raw = false ->
      tiberianOf transliterate (fieldOf (List.length hdr) idx raw) = Returns t ->
      let row := outputRow (rowCells (List.length hdr) raw) t in
      (forall rest n w,
          Mjs.forEachLine transliterate cfg (raw :: rest) (Mjs.mkLocals true idx hdr n) w
          = Mjs.forEachLine transliterate cfg rest (Mjs.mkLocals true idx hdr (n + 1))
              (write row w))
      /\ (forall rest w,
          Ts.forEachLine transliterate (raw :: rest) (Ts.mkLocals true idx hdr) w
          = Ts.forEachLine transliterate rest (Ts.mkLocals true idx hdr) (write row w)))
  /\ (forall raw width t,
      includes PIPE t = false ->
      outputRow (rowCells width raw) t
      = join PIPE (rowCells width raw) ++ PIPE :: t ++ newline
      /\ (width <= List.length (parseCsvLine (stripBOM raw) PIPE) ->
          outputRow (rowCells width raw) t
          = dropTrailingCR (stripBOM raw) ++ PIPE :: t ++ newline)%nat)
  /\ (forall h body answers,
      let hdr := parseCsvLine (stripBOM h) PIPE in
      let idx := indexOf hdr (lit "vocalized") in
      In (lit "vocalized") hdr ->
      Forall (accepted transliterate (List.length hdr) idx) body ->
      let rows := map (rowWritten transliterate (List.length hdr) idx)
                    (filter (fun raw => negb (isBlank raw)) body) in
      outputFile (fst (Mjs.main transliterate cfg (Some (h :: body)) (initialWorld answers)))
      = headerOut h :: rows
      /\ outputFile (fst (Ts.main transliterate cfg (Some (h :: body)) (initialWorld answers)))
         = headerOut h :: rows).
Proof.
  split; [|split].
  - intros raw hdr idx t Hb Ht. cbn zeta. split.
    + intros rest n w. cbn [Mjs.forEachLine].
      rewrite (mjs_row transliterate cfg raw (Mjs.mkLocals true idx hdr n) w eq_refl Hb).
      cbn zeta. cbn [Mjs.headerCells Mjs.vocalizedIdx].
      unfold fieldOf in Ht. now rewrite Ht.
    + intros rest w. cbn [Ts.forEachLine].
      rewrite (ts_row transliterate raw (Ts.mkLocals true idx hdr) w eq_refl Hb).
      cbn zeta. cbn [Ts.headerCells Ts.vocalizedIdx].
      unfold fieldOf in Ht. now rewrite Ht.
  - intros raw width t Ht.
    pose proof (outputRow_text width raw t Ht) as E. split; [exact E|].
    intros Hw. rewrite E. unfold rowCells, padTo, parseCsvLine.
    unfold parseCsvLine in Hw.
    replace (width - List.length (split PIPE (dropTrailingCR (stripBOM raw))))%nat
      with 0%nat by lia.
    cbn [repeat]. now rewrite app_nil_r, join_split.
  - intros h body answers hdr idx Hin Hall rows. split.
    + unfold Mjs.main. cbn [Mjs.forEachLine].
      rewrite (mjs_header_found transliterate cfg h Mjs.initialLocals
                 (initialWorld answers) eq_refl Hin).
      fold hdr. fold idx. rewrite (mjs_loop_accepted transliterate cfg hdr idx body Hall).
      fold rows. cbn [fst]. unfold Mjs.finish.
      assert (Hx : exitCode (writeAll rows (write (headerOut h) (initialWorld answers))) = None).
      { generalize (write (headerOut h) (initialWorld answers)) (eq_refl : exitCode (write (headerOut h) (initialWorld answers)) = None).
        induction rows as [|r rows IH]; intros w0 Hw0; [exact Hw0|].
        rewrite writeAll_cons. now apply IH. }
      rewrite Hx. cbn [consoleLog outputFile]. now rewrite writeAll_output.
    + unfold Ts.main. cbn [Ts.forEachLine].
      rewrite (ts_header_found transliterate h Ts.initialLocals
                 (initialWorld answers) eq_refl Hin).
      fold hdr. fold idx. rewrite (ts_loop_accepted transliterate hdr idx body Hall).
      fold rows. cbn [fst consoleLog outputFile]. now rewrite writeAll_output.
Qed.

Lemma rows_written_in_order_witness :
  outputFile (fst (Mjs.main sampleTransliterate (sampleConfig false false)
     (Some [lit "book|chapter|vocalized"; lit "Gen|1|ab"; lit "  "; lit "Exo"; lit "Lev|2|cd|e"])
     (initialWorld [])))
  = [lit "book|chapter|vocalized|tiberian" ++ newline;
     lit "Gen|1|ab|/ab/" ++ newline;
     lit "Exo|||" ++ newline;
     lit "Lev|2|cd|e|/cd/" ++ newline]
  /\ outputFile (fst (Ts.main sampleTransliterate (sampleConfig false false)
     (Some [lit "book|chapter|vocalized"; lit "Gen|1|ab"; lit "  "; lit "Exo"; lit "Lev|2|cd|e"])
     (initialWorld [])))
  = [lit "book|chapter|vocalized|tiberian" ++ newline;
     lit "Gen|1|ab|/ab/" ++ newline;
     lit "Exo|||" ++ newline;
     lit "Lev|2|cd|e|/cd/" ++ newline].
Proof.
  destruct (rows_written_in_order sampleTransliterate (sampleConfig false false))
    as (_ & _ & H).
  apply (H (lit "book|chapter|vocalized")
           [lit "Gen|1|ab"; lit "  "; lit "Exo"; lit "Lev|2|cd|e"] []).
  - vm_compute. right. right. now left.
  - constructor; [right; now exists (lit "/ab/")|].
    constructor; [now left|].
    constructor; [right; now exists []|].
    constructor; [right; now exists (lit "/cd/") | constructor].
Defined.

(** C2, as stated for every run, fails on the plain script: it has no
    error policy, so the error thrown for the row X leaves [main]
    uncaught and the row is not written. *)
Lemma plain_script_rejection_uncaught :
  let run := Ts.main sampleTransliterate (sampleConfig false true)
               (Some [lit "vocalized"; lit "X"; lit "ab"]) (initialWorld []) in
  sampleTransliterate (lit "X") = Throws (lit "unsupported character")
  /\ snd run = Thrown (lit "unsupported character")
  /\ outputFile (fst run) = [lit "vocalized|tiberian" ++ newline]
  /\ errChannel (fst run) = [].
Proof. repeat split. Qed.

(** C2 (amended): in the script with the error policy, a rejected field
    never ends the loop or the run with an uncaught error, and nothing that
    was handed to the output before is lost: the output only grows.  The
    rejected row is reported on the error channel; in skip mode it is then
    written with an empty last cell and the loop goes on, and in
    interactive mode the operator is asked first: after an affirmative
    answer the same happens, after any other answer the loop is left with
    exit code 1 and the row is not written, and when no answer ever comes
    the run stays at the prompt and the row is not written.  The plain
    script has no error policy: there the error leaves [main] uncaught, and
    neither the rejected row nor any later one is handed to the output. *)
Theorem rejected_field_handled (transliterate : jsstring -> Outcome) (cfg : Config) :
  (forall lines l w message,
      snd (Mjs.forEachLine transliterate cfg lines l w) <> Thrown message)
  /\ (forall file w,
      (forall message, snd (Mjs.main transliterate cfg file w) <> Thrown message)
      /\ exists more,
           outputFile (fst (Mjs.main transliterate cfg file w)) = outputFile w ++ more)
  /\ (forall raw l w message,
      Mjs.headerProcessed l = true ->
      isBlank raw = false ->
      let cells := rowCells (List.length (Mjs.headerCells l)) raw in
      let heb := fieldOf (List.length (Mjs.headerCells l)) (Mjs.vocalizedIdx l) raw in
      tiberianOf transliterate heb = Throws message ->
      let w1 := Mjs.report transliterate cfg (bump l) (stripBOM raw) cells heb message w in
      let asked := question (promptText ++ lit " Continue? (y/N): ") w1 in
      outputFile w1 = outputFile w
      /\ outputFile (snd asked) = outputFile w
      /\ Mjs.iteration transliterate cfg raw l w
         = if skipErrors cfg then (bump l, write (outputRow cells []) w1, Next)
           else match fst asked with
                | None => (bump l, snd asked, Stalled)
                | Some a =>
                    if affirmative (Some a)
                    then (bump l, write (outputRow cells []) (snd asked), Next)
                    else (bump l, setExitCode 1 (snd asked), Break)
                end)
  /\ (forall pre raw post lt wt w0 message,
      Ts.forEachLine transliterate pre Ts.initialLocals w0 = (lt, wt, Next) ->
      Ts.headerProcessed lt = true ->
      isBlank raw = false ->
      tiberianOf transliterate
        (fieldOf (List.length (Ts.headerCells lt)) (Ts.vocalizedIdx lt) raw)
        = Throws message ->
      Ts.main transliterate cfg (Some (pre ++ raw :: post)) w0 = (wt, Thrown message)).
Proof.
  split; [|split; [|split]].
  - intros lines l w message E.
    pose proof (mjs_loop_inv transliterate cfg lines l w) as H. cbn zeta in H.
    rewrite E in H. now destruct H.
  - intros file w. destruct file as [lines|]; cbn [Mjs.main].
    + pose proof (mjs_loop_inv transliterate cfg lines Mjs.initialLocals w) as H.
      cbn zeta in H.
      destruct (Mjs.forEachLine transliterate cfg lines Mjs.initialLocals w) as [[l' w'] c].
      cbn [fst snd] in H. destruct H as [Hm Hc].
      assert (Hf : outputFile (Mjs.finish cfg w') = outputFile w').
      { unfold Mjs.finish. destruct (exitCode w') as [k|]; [destruct (negb (k =? 0))|];
          reflexivity. }
      destruct c; cbn [fst snd]; (split; [discriminate | now rewrite ?Hf]).
    + split; [discriminate|]. exists []. simpl. now rewrite app_nil_r.
  - intros raw l w message Hh Hb cells heb Ht w1 asked.
    destruct (report_frame transliterate cfg (bump l) (stripBOM raw) cells heb message w)
      as (Ho & _).
    split; [exact Ho|]. split.
    + destruct (question_frame (promptText ++ lit " Continue? (y/N): ") w1) as (Ho2 & _).
      unfold asked. rewrite Ho2. exact Ho.
    + exact (mjs_rejected transliterate cfg raw l w message Hh Hb Ht).
  - intros pre raw post lt wt w0 message Hpre Hh Hb Ht.
    unfold Ts.main. rewrite ts_loop_app, Hpre. cbn [Ts.forEachLine].
    rewrite (ts_row transliterate raw lt wt Hh Hb). cbn zeta.
    unfold fieldOf in Ht. now rewrite Ht.
Qed.

Lemma rejected_field_handled_witness :
  Mjs.iteration sampleTransliterate (sampleConfig false true) (lit "Gen|aXb")
    (Mjs.mkLocals true 1%Z [lit "book"; lit "vocalized"] 1) (initialWorld [])
  = (Mjs.mkLocals true 1%Z [lit "book"; lit "vocalized"] 2,
     write (lit "Gen|aXb|" ++ newline)
       (consoleError (lit "Error at CSV line 2 (Gen|aXb): unsupported character")
          (initialWorld [])),
     Next).
Proof.
  destruct (rejected_field_handled sampleTransliterate (sampleConfig false true))
    as (_ & _ & H & _).
  destruct (H (lit "Gen|aXb") (Mjs.mkLocals true 1%Z [lit "book"; lit "vocalized"] 1)
              (initialWorld []) (lit "unsupported character")
              eq_refl eq_refl eq_refl) as (_ & _ & E).
  exact E.
Defined.




(** C8: a line that is blank (white space only) after the header writes
    nothing, in either script, and still counts: when the loop has read the
    lines [pre] its counter is their number, the header being line 1, and
    the diagnostic of a rejected row that follows names line
    [length pre + 1]. *)
Theorem blank_lines_counted (transliterate : jsstring -> Outcome) (cfg : Config)
    (pre : list jsstring) (raw : jsstring) (w0 w : World) (l : Mjs.Locals) :
  pre <> [] ->
  Mjs.forEachLine transliterate cfg pre Mjs.initialLocals w0 = (l, w, Next) ->
  Mjs.lineNumber l = N.of_nat (List.length pre)
  /\ (isBlank raw = true ->
        Mjs.forEachLine transliterate cfg (pre ++ [raw]) Mjs.initialLocals w0
          = (bump l, w, Next)
        /\ Mjs.lineNumber (bump l) = N.of_nat (List.length pre) + 1
        /\ forall lt wt, Ts.headerProcessed lt = true ->
             Ts.iteration transliterate raw lt wt = (lt, wt, Next))
  /\ (isBlank raw = false ->
        let cells := rowCells (List.length (Mjs.headerCells l)) raw in
        let heb := fieldOf (List.length (Mjs.headerCells l)) (Mjs.vocalizedIdx l) raw in
        forall message,
          tiberianOf transliterate heb = Throws message ->
          exists more,
            errChannel (snd (fst (Mjs.iteration transliterate cfg raw l w)))
            = errChannel w
                ++ headline cfg (N.of_nat (List.length pre) + 1)
                     (Mjs.location (bump l) cells) message :: more).
Proof.
  intros Hne Hpre.
  pose proof (mjs_loop_inv transliterate cfg pre Mjs.initialLocals w0) as H.
  cbn zeta in H. rewrite Hpre in H. cbn [fst snd] in H.
  destruct H as (_ & _ & Hn & Hh). specialize (Hh (or_intror Hne)).
  cbn [Mjs.initialLocals Mjs.lineNumber] in Hn. rewrite N.add_0_l in Hn.
  split; [exact Hn|]. split.
  - intros Hb. split; [|split].
    + rewrite mjs_loop_app, Hpre. cbn [Mjs.forEachLine].
      now rewrite (mjs_blank transliterate cfg raw l w Hh Hb).
    + unfold bump. cbn [Mjs.lineNumber]. now rewrite Hn.
    + intros lt wt Hlt. now apply ts_blank.
  - intros Hb cells heb message Ht.
    rewrite (mjs_rejected transliterate cfg raw l w message Hh Hb Ht). cbn zeta.
    fold cells heb.
    destruct (report_frame transliterate cfg (bump l) (stripBOM raw) cells heb message w)
      as (_ & _ & _ & _ & more & Herr).
    set (w1 := Mjs.report _ _ _ _ _ _ _ _) in *.
    destruct (question_frame (promptText ++ lit " Continue? (y/N): ") w1) as (_ & _ & He).
    exists more. unfold bump in Herr at 1. cbn [Mjs.lineNumber] in Herr.
    rewrite Hn in Herr. rewrite <- Herr.
    destruct (skipErrors cfg); [reflexivity|].
    destruct (fst (question _ w1)) as [a|]; [destruct (affirmative (Some a))|];
      cbn [fst snd write setExitCode errChannel]; exact He.
Qed.

Lemma blank_lines_counted_witness :
  exists more,
    errChannel (snd (fst (Mjs.iteration sampleTransliterate (sampleConfig false true)
       (lit "aXb") (Mjs.mkLocals true 0%Z [lit "vocalized"] 3)
       (write (lit "vocalized|tiberian" ++ newline) (initialWorld [])))))
    = [lit "Error at CSV line 4 (aXb): unsupported character"] ++ more.
Proof.
  destruct (blank_lines_counted sampleTransliterate (sampleConfig false true)
              [lit "vocalized"; []; lit "  "] (lit "aXb") (initialWorld [])
              (write (lit "vocalized|tiberian" ++ newline) (initialWorld []))
              (Mjs.mkLocals true 0%Z [lit "vocalized"] 3)
              ltac:(discriminate) eq_refl) as (_ & _ & H).
  destruct (H eq_refl (lit "unsupported character") eq_refl) as [more E].
  exists more. exact E.
Defined.

(** C9, as stated, fails: in skip mode a run with a rejected row reaches the
    end of the input and still prints the clean-completion line; the
    completed-with-errors line is not printed. *)
Lemma skipped_error_reports_clean :
  let run := Mjs.main sampleTransliterate (sampleConfig false true)
               (Some [lit "vocalized"; lit "X"]) (initialWorld []) in
  run = (mkWorld [lit "vocalized|tiberian" ++ newline; lit "X|" ++ newline]
           [lit "Error at CSV line 2 (X): unsupported character"]
           [lit "Wrote: out.csv"] [] None,
         Next)
  /\ ~ In completedWithErrors (errChannel (fst run)).
Proof.
  split; [reflexivity|]. intros [H|[]]. discriminate.
Qed.

(** C9 (amended): the final status line follows [process.exitCode], which
    only the operator's refusal sets.  A run whose loop reaches the end of
    the input prints the clean-completion line naming the output path,
    whether or not rows were rejected on the way (skipped, or continued by
    the operator); a run that the operator stopped with an answer prints
    the completed-with-errors line on the error channel; a run stopped by
    [process.exit], and a run left at a prompt that is never answered,
    print no status line at all.  In skip mode the operator is never
    asked, so the last two of these do not arise from a prompt. *)
Theorem final_status_line (transliterate : jsstring -> Outcome) (cfg : Config)
    (lines : list jsstring) (w0 : World) :
  exitCode w0 = None ->
  let r := Mjs.forEachLine transliterate cfg lines Mjs.initialLocals w0 in
  let w := snd (fst r) in
  let run := Mjs.main transliterate cfg (Some lines) w0 in
  match snd r with
  | Next => run = (consoleLog (lit "Wrote: " ++ outputPath cfg) w, Next)
  | Break => skipErrors cfg = false
             /\ run = (consoleError completedWithErrors w, Next)
  | ExitNow c => run = (w, ExitNow c)
  | Thrown _ => False
  | Stalled => skipErrors cfg = false
               /\ run = (w, Stalled)
  end.
Proof.
  intros Hx. cbn zeta. unfold Mjs.main.
  pose proof (mjs_loop_inv transliterate cfg lines Mjs.initialLocals w0) as H.
  cbn zeta in H.
  destruct (Mjs.forEachLine transliterate cfg lines Mjs.initialLocals w0) as [[l w] c].
  cbn [fst snd] in H |- *. destruct H as [_ H].
  destruct c.
  - destruct H as (He & _). unfold Mjs.finish. now rewrite He, Hx.
  - destruct H as (He & Hs). split; [exact Hs|]. unfold Mjs.finish. now rewrite He.
  - reflexivity.
  - exact H.
  - destruct H as (_ & Hs). now split.
Qed.

Lemma final_status_line_witness :
  Mjs.main sampleTransliterate (sampleConfig false false)
    (Some [lit "vocalized"; lit "X"; lit "ab"]) (initialWorld [lit "n"])
  = (consoleError completedWithErrors
       (snd (fst (Mjs.forEachLine sampleTransliterate (sampleConfig false false)
                    [lit "vocalized"; lit "X"; lit "ab"] Mjs.initialLocals
                    (initialWorld [lit "n"])))),
     Next).
Proof.
  pose proof (final_status_line sampleTransliterate (sampleConfig false false)
                [lit "vocalized"; lit "X"; lit "ab"] (initialWorld [lit "n"]) eq_refl) as H.
  cbn zeta in H.
  change (snd (Mjs.forEachLine sampleTransliterate (sampleConfig false false)
                 [lit "vocalized"; lit "X"; lit "ab"] Mjs.initialLocals
                 (initialWorld [lit "n"]))) with Break in H.
  exact (proj2 H).
Defined.

(** ** Further properties of the reader and the writer *)

Lemma split_length (d : N) (s : jsstring) :
  List.length (split d s) = S (count_occ N.eq_dec s d).
Proof.
  induction s as [|c s IH]; [reflexivity|].
  simpl. destruct (N.eqb_spec c d) as [->|Hcd].
  - destruct (N.eq_dec d d); [|congruence]. simpl. now rewrite IH.
  - destruct (N.eq_dec c d); [congruence|].
    destruct (split d s) as [|p ps]; simpl in *; [discriminate | exact IH].
Qed.

Lemma dropTrailingCR_snoc (s : jsstring) : dropTrailingCR (s ++ [CR]) = s.
Proof.
  induction s as [|c s IH]; [reflexivity|].
  simpl app. destruct (s ++ [CR]) as [|x r] eqn:E; [now destruct s|].
  change (dropTrailingCR (c :: x :: r)) with (c :: dropTrailingCR (x :: r)).
  now rewrite IH.
Qed.

Lemma endsWith_last_cell (cells : list jsstring) :
  cells <> [] -> endsWith CR (last cells []) = false ->
  endsWith CR (join PIPE cells) = false.
Proof.
  induction cells as [|c cs IH]; intros Hne Hl; [congruence|].
  destruct cs as [|c2 cs]; [exact Hl|].
  change (join PIPE (c :: c2 :: cs)) with (c ++ PIPE :: join PIPE (c2 :: cs)).
  rewrite endsWith_app_cons.
  assert (H : endsWith CR (join PIPE (c2 :: cs)) = false) by (apply IH; [discriminate | exact Hl]).
  destruct (join PIPE (c2 :: cs)); [reflexivity | exact H].
Qed.

(** X1: [parseCsvLine] never returns an empty list: a line with k
    delimiters (after its final carriage return is dropped) gives k + 1
    fields, and no field contains the delimiter. *)
Theorem parse_field_count (line : jsstring) (d : N) :
  List.length (parseCsvLine line d) = S (count_occ N.eq_dec (dropTrailingCR line) d)
  /\ Forall (fun p => includes d p = false) (parseCsvLine line d).
Proof.
  unfold parseCsvLine. split; [apply split_length | apply split_pieces_plain].
Qed.

(** X2: writing the fields of a parsed line gives the line back, without
    its final carriage return: the writer never quotes what the reader
    produced. *)
Theorem join_parse_line (line : jsstring) (d : N) :
  joinCsvLine (parseCsvLine line d) d = dropTrailingCR line.
Proof.
  unfold parseCsvLine. rewrite joinCsvLine_plain by apply split_pieces_plain.
  apply join_split.
Qed.

(** X3: one carriage return at the end of a line is ignored: the line and
    the line followed by a carriage return have the same fields.  Only one
    is dropped: a second carriage return stays in the last field. *)
Theorem carriage_return_ignored (line : jsstring) (d : N) :
  endsWith CR line = false ->
  parseCsvLine (line ++ [CR]) d = parseCsvLine line d
  /\ parseCsvLine (line ++ [CR; CR]) d <> parseCsvLine line d.
Proof.
  intros Hl. unfold parseCsvLine.
  rewrite dropTrailingCR_snoc, (dropTrailingCR_keeps _ Hl). split; [reflexivity|].
  change (line ++ [CR; CR]) with (line ++ [CR] ++ [CR]).
  rewrite app_assoc, dropTrailingCR_snoc. intros E.
  apply (f_equal (join d)) in E. rewrite !join_split in E.
  apply (f_equal (@List.length N)) in E. rewrite length_app in E. simpl in E. lia.
Qed.

Lemma carriage_return_ignored_witness :
  parseCsvLine (lit "Gen|1" ++ [CR]) PIPE = parseCsvLine (lit "Gen|1") PIPE
  /\ parseCsvLine (lit "Gen|1" ++ [CR; CR]) PIPE <> parseCsvLine (lit "Gen|1") PIPE.
Proof.
  apply (carriage_return_ignored (lit "Gen|1") PIPE). reflexivity.
Defined.

(** X4: reading back what the writer wrote gives the same fields whenever
    the list is not empty, no field contains the delimiter and the last
    field does not end with a carriage return.  Quote characters and
    carriage returns elsewhere do no harm. *)
Theorem parse_join_fields (cells : list jsstring) :
  cells <> [] ->
  Forall (fun c => includes PIPE c = false) cells ->
  endsWith CR (last cells []) = false ->
  parseCsvLine (joinCsvLine cells PIPE) PIPE = cells.
Proof.
  intros Hne Hp Hl. unfold parseCsvLine. rewrite (joinCsvLine_plain _ _ Hp).
  rewrite (dropTrailingCR_keeps _ (endsWith_last_cell _ Hne Hl)).
  now apply split_join.
Qed.

Lemma parse_join_fields_witness :
  parseCsvLine (joinCsvLine [[0x61; CR]; [QUOTE; 0x62]; []] PIPE) PIPE
  = [[0x61; CR]; [QUOTE; 0x62]; []].
Proof.
  apply (parse_join_fields [[0x61; CR]; [QUOTE; 0x62]; []]).
  - discriminate.
  - repeat constructor.
  - reflexivity.
Defined.

(** X5: a written row can be read back by the same reader: when the
    result of the library holds no delimiter and does not end with a
    carriage return, parsing the output line (without its newline) gives
    the padded cells of the input row followed by the result. *)
Theorem output_row_reread (width : nat) (raw t : jsstring) :
  includes PIPE t = false ->
  endsWith CR t = false ->
  parseCsvLine (joinCsvLine (rowCells width raw ++ [t]) PIPE) PIPE
  = rowCells width raw ++ [t].
Proof.
  intros Ht Hc. destruct (rowCells_plain width raw) as [Hne Hp].
  assert (Hne' : rowCells width raw ++ [t] <> []) by now destruct (rowCells width raw).
  assert (Hp' : Forall (fun c => includes PIPE c = false) (rowCells width raw ++ [t]))
    by (apply Forall_app; split; [exact Hp | now repeat constructor]).
  assert (Hl : endsWith CR (last (rowCells width raw ++ [t]) []) = false)
    by now rewrite last_last.
  unfold parseCsvLine. rewrite (joinCsvLine_plain _ _ Hp').
  rewrite (dropTrailingCR_keeps _ (endsWith_last_cell _ Hne' Hl)).
  now apply split_join.
Qed.

Lemma output_row_reread_witness :
  parseCsvLine (joinCsvLine (rowCells 3 (lit "Gen|ab") ++ [lit "/ab/"]) PIPE) PIPE
  = [lit "Gen"; lit "ab"; []; lit "/ab/"].
Proof.
  apply (output_row_reread 3 (lit "Gen|ab") (lit "/ab/")); reflexivity.
Defined.

(** ** Padding and the choice of the field *)

Lemma indexOfFrom_first (x : jsstring) (pre post : list jsstring) (i : Z) :
  ~ In x pre ->
  indexOfFrom x (pre ++ x :: post) i = (i + Z.of_nat (List.length pre))%Z.
Proof.
  revert i. induction pre as [|y pre IH]; intros i Hn; simpl.
  - assert (E : jsstring_eqb x x = true) by now apply jsstring_eqb_eq.
    rewrite E. lia.
  - assert (E : jsstring_eqb y x = false)
      by (apply jsstring_eqb_neq; intros ->; apply Hn; now left).
    rewrite E, IH by (intros H; apply Hn; now right). lia.
Qed.

Lemma padTo_lookup (n k : nat) (cells : list jsstring) :
  (k < n)%nat -> nth_error (padTo n cells) k = Some (nth k cells []).
Proof.
  intros Hk. unfold padTo.
  destruct (Nat.lt_ge_cases k (List.length cells)) as [Hlt|Hge].
  - rewrite nth_error_app1 by exact Hlt. now apply nth_error_nth'.
  - rewrite nth_error_app2 by exact Hge. rewrite (nth_overflow _ _ Hge).
    apply nth_error_repeat. lia.
Qed.

(** X6: the field sent to the library is the cell under the first header
    column named [vocalized]; a row too short to have that cell is padded,
    so the field is then the empty string and never undefined. *)
Theorem vocalized_field_selected (pre post : list jsstring) (raw : jsstring) :
  ~ In (lit "vocalized") pre ->
  let hdr := pre ++ lit "vocalized" :: post in
  indexOf hdr (lit "vocalized") = Z.of_nat (List.length pre)
  /\ fieldOf (List.length hdr) (indexOf hdr (lit "vocalized")) raw
     = Some (nth (List.length pre) (parseCsvLine (stripBOM raw) PIPE) []).
Proof.
  intros Hn hdr.
  assert (E : indexOf hdr (lit "vocalized") = Z.of_nat (List.length pre))
    by (unfold indexOf, hdr; now rewrite indexOfFrom_first).
  split; [exact E|]. rewrite E. unfold fieldOf, at_index, rowCells.
  destruct (Z.ltb_spec (Z.of_nat (List.length pre)) 0) as [Hlt|_]; [lia|].
  rewrite Nat2Z.id. apply padTo_lookup.
  unfold hdr. rewrite length_app. simpl. lia.
Qed.

Lemma vocalized_field_selected_witness :
  fieldOf 3 (indexOf [lit "book"; lit "vocalized"; lit "vocalized"] (lit "vocalized"))
    (lit "Gen|ab|cd")
  = Some (lit "ab")
  /\ fieldOf 3 (indexOf [lit "book"; lit "vocalized"; lit "vocalized"] (lit "vocalized"))
       (lit "Gen")
     = Some [].
Proof.
  split.
  - apply (vocalized_field_selected [lit "book"] [lit "vocalized"] (lit "Gen|ab|cd")).
    intros [H|[]]. discriminate.
  - apply (vocalized_field_selected [lit "book"] [lit "vocalized"] (lit "Gen")).
    intros [H|[]]. discriminate.
Defined.

(** X7: padding never truncates a row: the cells of a data row start with
    the cells parsed from the line, and their number is the larger of the
    header width and the number of parsed cells. *)
Theorem rows_never_truncated (width : nat) (raw : jsstring) :
  let parsed := parseCsvLine (stripBOM raw) PIPE in
  List.length (rowCells width raw) = Nat.max width (List.length parsed)
  /\ firstn (List.length parsed) (rowCells width raw) = parsed
  /\ Forall (fun c => c = []) (skipn (List.length parsed) (rowCells width raw)).
Proof.
  cbn zeta. unfold rowCells, padTo.
  set (parsed := parseCsvLine (stripBOM raw) PIPE). split; [|split].
  - rewrite length_app, repeat_length. lia.
  - rewrite firstn_app, Nat.sub_diag, firstn_all. simpl. apply app_nil_r.
  - rewrite skipn_app, Nat.sub_diag, skipn_all. simpl.
    apply Forall_forall. intros c Hc. now apply repeat_spec in Hc.
Qed.

(** ** Blank lines and the operator's answer *)

Lemma trimStart_nil (s : jsstring) : trimStart s = [] <-> forallb isWhiteSpace s = true.
Proof.
  induction s as [|c s IH]; simpl; [tauto|].
  destruct (isWhiteSpace c); simpl; [exact IH|]. split; discriminate.
Qed.

Lemma trimStart_split (s : jsstring) :
  exists pre, s = pre ++ trimStart s /\ forallb isWhiteSpace pre = true.
Proof.
  induction s as [|c s [pre [E H]]]; simpl.
  - now exists [].
  - destruct (isWhiteSpace c) eqn:Ec.
    + exists (c :: pre). simpl. rewrite Ec, H. split; [now f_equal | reflexivity].
    + now exists [].
Qed.

Lemma trimStart_app_ws (pre s : jsstring) :
  forallb isWhiteSpace pre = true -> trimStart (pre ++ s) = trimStart s.
Proof.
  induction pre as [|c pre IH]; simpl; [reflexivity|].
  intros H. apply andb_true_iff in H as [Hc Hp]. rewrite Hc. now apply IH.
Qed.

Lemma trimStart_app_text (s post : jsstring) :
  forallb isWhiteSpace s = false -> trimStart (s ++ post) = trimStart s ++ post.
Proof.
  induction s as [|c s IH]; simpl; [discriminate|].
  destruct (isWhiteSpace c); simpl; [exact IH | reflexivity].
Qed.

Lemma forallb_rev_ws (s : jsstring) :
  forallb isWhiteSpace (rev s) = forallb isWhiteSpace s.
Proof.
  induction s as [|c s IH]; [reflexivity|].
  simpl. rewrite forallb_app, IH. simpl. rewrite andb_true_r. apply andb_comm.
Qed.

Lemma trim_nil (s : jsstring) : trim s = [] <-> forallb isWhiteSpace s = true.
Proof.
  unfold trim. split.
  - intros H. apply (f_equal (@rev N)) in H. rewrite rev_involutive in H. simpl in H.
    apply trimStart_nil in H. rewrite forallb_rev_ws in H.
    destruct (trimStart_split s) as [pre [E Hp]].
    rewrite E, forallb_app, Hp, H. reflexivity.
  - intros H. apply trimStart_nil in H. now rewrite H.
Qed.

Lemma trim_split (s : jsstring) :
  exists pre post, s = pre ++ trim s ++ post
    /\ forallb isWhiteSpace pre = true /\ forallb isWhiteSpace post = true.
Proof.
  destruct (trimStart_split s) as [pre [E Hp]].
  destruct (trimStart_split (rev (trimStart s))) as [q [Eq Hq]].
  exists pre, (rev q). split; [|split; [exact Hp | now rewrite forallb_rev_ws]].
  unfold trim. rewrite <- rev_app_distr, <- Eq, rev_involutive. exact E.
Qed.

Lemma trim_surround (pre s post : jsstring) :
  forallb isWhiteSpace pre = true -> forallb isWhiteSpace post = true ->
  trim (pre ++ s ++ post) = trim s.
Proof.
  intros Hp Hq. unfold trim. rewrite (trimStart_app_ws _ _ Hp).
  destruct (forallb isWhiteSpace s) eqn:Hs.
  - rewrite (trimStart_app_ws _ _ Hs). apply trimStart_nil in Hs, Hq.
    now rewrite Hs, Hq.
  - rewrite (trimStart_app_text _ _ Hs), rev_app_distr.
    rewrite trimStart_app_ws by now rewrite forallb_rev_ws. reflexivity.
Qed.

Lemma stripBOM_ws (s : jsstring) :
  forallb isWhiteSpace (stripBOM s) = forallb isWhiteSpace s.
Proof.
  induction s as [|c s IH]; [reflexivity|].
  unfold stripBOM in *. simpl. destruct (N.eqb_spec c BOM) as [->|Hc]; simpl.
  - exact IH.
  - now rewrite IH.
Qed.

(** X8: a line is skipped as blank exactly when every one of its units is
    white space, a byte-order mark included; the empty line is blank. *)
Theorem blank_iff_white_space (raw : jsstring) :
  isBlank raw = forallb isWhiteSpace raw.
Proof.
  unfold isBlank. rewrite <- stripBOM_ws.
  destruct (forallb isWhiteSpace (stripBOM raw)) eqn:H.
  - apply jsstring_eqb_eq. now apply trim_nil.
  - apply jsstring_eqb_neq. intros E. apply trim_nil in E. congruence.
Qed.

Lemma toLowerCase_nil (t : jsstring) : toLowerCase t = [] -> t = [].
Proof.
  destruct t as [|c t]; [reflexivity|]. unfold toLowerCase, lowerUnit. simpl.
  destruct ((0x41 <=? c) && (c <=? 0x5A)); [discriminate|].
  destruct (c =? 0x212A); [discriminate|]. destruct (c =? 0x130); discriminate.
Qed.

Lemma toLowerCase_head (x : N) (t rest : jsstring) :
  x = 0x79 \/ x = 0x65 \/ x = 0x73 ->
  toLowerCase t = x :: rest ->
  exists c t', t = c :: t' /\ (c = x \/ c + 0x20 = x) /\ toLowerCase t' = rest.
Proof.
  intros Hx E. destruct t as [|c t]; [discriminate|].
  exists c, t. split; [reflexivity|].
  unfold toLowerCase in *. simpl in E. unfold lowerUnit in E.
  destruct ((0x41 <=? c) && (c <=? 0x5A)).
  - inversion E. auto.
  - destruct (N.eqb_spec c 0x212A).
    + inversion E. lia.
    + destruct (N.eqb_spec c 0x130); inversion E; [lia | auto].
Qed.

Lemma lowered_words (t : jsstring) :
  toLowerCase t = lit "y" \/ toLowerCase t = lit "yes" -> In t affirmativeWords.
Proof.
  intros [E|E].
  - change (lit "y") with [0x79] in E.
    apply toLowerCase_head in E as (c & t' & -> & Hc & E'); [|auto].
    apply toLowerCase_nil in E' as ->.
    destruct Hc as [->|Hc]; [now left|].
    assert (c = 0x59) as -> by lia. right. now left.
  - change (lit "yes") with [0x79; 0x65; 0x73] in E.
    apply toLowerCase_head in E as (c1 & t1 & -> & H1 & E); [|auto].
    apply toLowerCase_head in E as (c2 & t2 & -> & H2 & E); [|auto].
    apply toLowerCase_head in E as (c3 & t3 & -> & H3 & E); [|auto].
    apply toLowerCase_nil in E as ->.
    assert (K1 : c1 = 0x79 \/ c1 = 0x59) by lia.
    assert (K2 : c2 = 0x65 \/ c2 = 0x45) by lia.
    assert (K3 : c3 = 0x73 \/ c3 = 0x53) by lia.
    destruct K1 as [-> | ->], K2 as [-> | ->], K3 as [-> | ->];
      unfold affirmativeWords; simpl; tauto.
Qed.

(** X9: the callback of the prompt takes the answer as affirmative
    exactly when it is one of y and yes, in any mix of upper and lower
    case, with any white space before and after it; every other answer is
    a refusal, the empty one included, and so is an absent argument, which
    the callback reads as the empty answer. *)
Theorem affirmative_answers (answer : option jsstring) :
  affirmative answer = true <->
  exists pre word post,
    answerText answer = pre ++ word ++ post
    /\ forallb isWhiteSpace pre = true
    /\ forallb isWhiteSpace post = true
    /\ In word affirmativeWords.
Proof.
  unfold affirmative. fold (answerText answer).
  rewrite orb_true_iff, !jsstring_eqb_eq. split.
  - intros H. apply lowered_words in H.
    destruct (trim_split (answerText answer)) as (pre & post & E & Hp & Hq).
    now exists pre, (trim (answerText answer)), post.
  - intros (pre & word & post & -> & Hp & Hq & Hw).
    rewrite (trim_surround _ _ _ Hp Hq).
    unfold affirmativeWords in Hw. simpl in Hw.
    repeat (destruct Hw as [<-|Hw]; [vm_compute; auto|]). contradiction.
Qed.

(** ** More on the offending-token search *)

Lemma splitRuns_text (s cur : jsstring) :
  forallb (fun c => negb (isSeparator c)) s = true ->
  splitRuns cur false s = [cur ++ s].
Proof.
  revert cur. induction s as [|c s IH]; intros cur H; simpl.
  - now rewrite app_nil_r.
  - simpl in H. apply andb_true_iff in H as [Hc Hs].
    destruct (isSeparator c); [discriminate|]. simpl.
    rewrite IH by exact Hs. now rewrite <- app_assoc.
Qed.

(** X10: the token the search reports is a piece of the field itself, it
    is not empty, holds no separator character, and the library rejects
    it.  A rejected field that holds no separator at all is reported
    whole. *)
Theorem offending_word_sound (transliterate : jsstring -> Outcome) (heb : jsstring) :
  (forall tok,
      findOffendingWord transliterate heb = Some tok ->
      tok <> []
      /\ forallb (fun c => negb (isSeparator c)) tok = true
      /\ isSubstring tok heb
      /\ exists m, transliterate tok = Throws m)
  /\ (heb <> [] ->
      forallb (fun c => negb (isSeparator c)) heb = true ->
      (exists m, transliterate heb = Throws m) ->
      findOffendingWord transliterate heb = Some heb).
Proof.
  split.
  - intros tok H. unfold findOffendingWord in H.
    apply firstThrowing_some in H as (pre & post & E & _ & Hk & Hm).
    destruct (splitRuns_tokens heb [] false eq_refl) as (Hc & Hr & _).
    fold (splitKeepingSeparators heb) in Hc, Hr. rewrite E in Hc, Hr.
    apply Forall_app in Hr as [_ Hr]. inversion Hr as [|? ? [Hne Hkind] _]; subst.
    split; [exact Hne|]. split; [|split; [|exact Hm]].
    + destruct Hkind as [Hsep|Htext]; [|exact Htext].
      unfold isPureSeparator in Hk. rewrite Hsep, andb_true_r in Hk.
      now destruct tok.
    + exists (List.concat pre), (List.concat post).
      change ([] ++ heb) with heb in Hc.
      rewrite <- Hc, concat_app. reflexivity.
  - intros Hne Htext [m Hm]. unfold findOffendingWord, splitKeepingSeparators.
    rewrite (splitRuns_text heb [] Htext). simpl app.
    destruct heb as [|c h]; [congruence|]. cbn [filter truthy firstThrowing].
    assert (Hk : isPureSeparator (c :: h) = false).
    { unfold isPureSeparator. simpl in Htext |- *.
      apply andb_true_iff in Htext as [Hc _]. now destruct (isSeparator c). }
    now rewrite Hk, Hm.
Qed.

Lemma offending_word_sound_witness :
  findOffendingWord sampleTransliterate (lit "aXb") = Some (lit "aXb").
Proof.
  destruct (offending_word_sound sampleTransliterate (lit "aXb")) as [_ H].
  apply H; [discriminate | reflexivity | now exists (lit "unsupported character")].
Defined.

(** ** More on the diagnostics *)

Lemma truthy_app_cons (a : jsstring) (x : N) (b : jsstring) : truthy (a ++ x :: b) = true.
Proof. now destruct a. Qed.

(** X11: the location of a rejected row is always printed: a header that
    holds [vocalized] never makes the location hint empty, so the first
    three cells of the row stand in brackets in every diagnostic. *)
Theorem location_always_printed (l : Mjs.Locals) (cells : list jsstring) :
  In (lit "vocalized") (Mjs.headerCells l) ->
  Mjs.location l cells = lit " (" ++ join PIPE (slice0 3 cells) ++ lit ")".
Proof.
  intros Hin. unfold Mjs.location.
  assert (H : truthy (join PIPE (slice0 3 (Mjs.headerCells l))) = true).
  { destruct (Mjs.headerCells l) as [|c [|c2 rest]].
    - contradiction.
    - destruct Hin as [->|[]]. reflexivity.
    - unfold slice0. cbn [firstn].
      change (join PIPE (c :: c2 :: firstn 1 rest))
        with (c ++ PIPE :: join PIPE (c2 :: firstn 1 rest)).
      apply truthy_app_cons. }
  now rewrite H.
Qed.

Lemma location_always_printed_witness :
  Mjs.location (Mjs.mkLocals true 3%Z [[]; []; []; lit "vocalized"] 2)
    [lit "Gen"; lit "1"; lit "2"; lit "ab"]
  = lit " (Gen|1|2)".
Proof.
  apply (location_always_printed (Mjs.mkLocals true 3%Z [[]; []; []; lit "vocalized"] 2)
           [lit "Gen"; lit "1"; lit "2"; lit "ab"]).
  simpl. tauto.
Defined.

(** X12: the row excerpt of the debug diagnostics is bounded: it holds at
    most the first 200 units of the line, whole when the line is no longer
    than that and followed by three dots otherwise. *)
Theorem excerpt_bounded (line : jsstring) :
  (List.length (Mjs.excerptLine line) <= 216)%nat
  /\ ((List.length line <= 200)%nat ->
      Mjs.excerptLine line = lit "Row excerpt: " ++ line)
  /\ ((200 < List.length line)%nat ->
      Mjs.excerptLine line = lit "Row excerpt: " ++ firstn 200 line ++ lit "...").
Proof.
  unfold Mjs.excerptLine, slice0. split; [|split].
  - rewrite !length_app.
    assert (H1 : (List.length (firstn 200 line) <= 200)%nat) by apply firstn_le_length.
    assert (H2 : (List.length (if (200 <? List.length line)%nat then lit "..." else [])
                  <= 3)%nat)
      by (destruct (200 <? List.length line)%nat; simpl; lia).
    change (List.length (lit "Row excerpt: ")) with 13%nat. lia.
  - intros H. rewrite firstn_all2 by exact H.
    destruct (Nat.ltb_spec 200 (List.length line)); [lia|]. now rewrite app_nil_r.
  - intros H. destruct (Nat.ltb_spec 200 (List.length line)); [reflexivity | lia].
Qed.

Lemma excerpt_bounded_witness :
  Mjs.excerptLine (lit "Gen|1|ab") = lit "Row excerpt: Gen|1|ab".
Proof.
  destruct (excerpt_bounded (lit "Gen|1|ab")) as (_ & H & _).
  apply H. simpl. lia.
Defined.

(** ** Whole runs under each policy *)

Section Policies.

Variable transliterate : jsstring -> Outcome.
Variable cfg : Config.
Variable hdr : list jsstring.
Variable idx : Z.

Lemma report_plain (l : Mjs.Locals) (line : jsstring) (cells : list jsstring)
    (heb : option jsstring) (message : jsstring) (w : World) :
  debug cfg = false ->
  Mjs.report transliterate cfg l line cells heb message w
  = consoleError (Mjs.errorLine l cells message) w.
Proof. intros H. unfold Mjs.report. now rewrite H. Qed.

Lemma question_answered (text a : jsstring) (more : list jsstring) (w : World) :
  operator w = a :: more ->
  question text w
  = (Some a, mkWorld (outputFile w) (errChannel w) (outChannel w ++ [text]) more (exitCode w)).
Proof. intros H. unfold question. simpl. now rewrite H. Qed.

Lemma rejected_row_written (raw : jsstring) (message : jsstring) :
  tiberianOf transliterate (fieldOf (List.length hdr) idx raw) = Throws message ->
  rowWritten transliterate (List.length hdr) idx raw
  = outputRow (rowCells (List.length hdr) raw) [].
Proof. intros H. unfold rowWritten. now rewrite H. Qed.

Lemma accepted_row_written (raw t : jsstring) :
  tiberianOf transliterate (fieldOf (List.length hdr) idx raw) = Returns t ->
  rowWritten transliterate (List.length hdr) idx raw
  = outputRow (rowCells (List.length hdr) raw) t.
Proof. intros H. unfold rowWritten. now rewrite H. Qed.

(** The loop in skip mode. *)
Lemma mjs_loop_skip (body : list jsstring) :
  skipErrors cfg = true ->
  forall n w, exists w',
    Mjs.forEachLine transliterate cfg body (Mjs.mkLocals true idx hdr n) w
    = (Mjs.mkLocals true idx hdr (n + N.of_nat (List.length body)), w', Next)
    /\ outputFile w' = outputFile w
         ++ map (rowWritten transliterate (List.length hdr) idx)
              (filter (fun raw => negb (isBlank raw)) body)
    /\ outChannel w' = outChannel w
    /\ operator w' = operator w
    /\ exitCode w' = exitCode w
    /\ (debug cfg = false ->
        List.length (errChannel w')
        = (List.length (errChannel w)
           + List.length (filter (isRejected transliterate (List.length hdr) idx) body))%nat).
Proof.
  intros Hs. induction body as [|raw body IH]; intros n w.
  - exists w. simpl. rewrite N.add_0_r, app_nil_r. repeat split; auto.
  - cbn [Mjs.forEachLine filter]. unfold isRejected at 1. fold (isRejected transliterate).
    destruct (isBlank raw) eqn:Hb.
    + rewrite (mjs_blank transliterate cfg raw (Mjs.mkLocals true idx hdr n) w eq_refl Hb).
      unfold bump. cbn [Mjs.headerProcessed Mjs.vocalizedIdx Mjs.headerCells Mjs.lineNumber].
      destruct (IH (n + 1) w) as (w' & E & Ho & Hc & Hp & Hx & He).
      exists w'. rewrite E. cbn [negb andb].
      repeat split; auto. do 3 f_equal. cbn [List.length]. lia.
    + cbn [negb andb map].
      destruct (tiberianOf transliterate (fieldOf (List.length hdr) idx raw))
        as [t|message] eqn:Ht.
      * rewrite (mjs_row transliterate cfg raw (Mjs.mkLocals true idx hdr n) w eq_refl Hb).
        cbn zeta. cbn [Mjs.headerProcessed Mjs.vocalizedIdx Mjs.headerCells Mjs.lineNumber].
        unfold fieldOf in Ht. rewrite Ht. fold (fieldOf (List.length hdr) idx raw) in Ht.
        unfold bump. cbn [Mjs.headerProcessed Mjs.vocalizedIdx Mjs.headerCells Mjs.lineNumber].
        destruct (IH (n + 1) (write (outputRow (rowCells (List.length hdr) raw) t) w))
          as (w' & E & Ho & Hc & Hp & Hx & He).
        exists w'. rewrite E, (accepted_row_written raw t Ht).
        split; [do 3 f_equal; cbn [List.length]; lia|].
        split; [rewrite Ho; cbn [write outputFile]; now rewrite <- app_assoc|].
        repeat split; auto.
      * rewrite (mjs_rejected transliterate cfg raw (Mjs.mkLocals true idx hdr n) w message
                   eq_refl Hb Ht).
        cbn zeta. rewrite Hs.
        cbn [Mjs.headerProcessed Mjs.vocalizedIdx Mjs.headerCells Mjs.lineNumber].
        set (cells := rowCells (List.length hdr) raw).
        set (l1 := bump (Mjs.mkLocals true idx hdr n)).
        destruct (report_frame transliterate cfg l1 (stripBOM raw) cells
                    (fieldOf (List.length hdr) idx raw) message w)
          as (Ro & Rx & Rp & Rc & _).
        pose proof (report_plain l1 (stripBOM raw) cells
                      (fieldOf (List.length hdr) idx raw) message w) as Rplain.
        set (w1 := Mjs.report transliterate cfg l1 (stripBOM raw) cells
                     (fieldOf (List.length hdr) idx raw) message w) in *.
        destruct (IH (n + 1) (write (outputRow cells []) w1))
          as (w' & E & Ho & Hc & Hp & Hx & He).
        exists w'. unfold l1, bump.
        cbn [Mjs.headerProcessed Mjs.vocalizedIdx Mjs.headerCells Mjs.lineNumber].
        rewrite E, (rejected_row_written raw message Ht). fold cells.
        split; [do 3 f_equal; cbn [List.length]; lia|].
        split; [rewrite Ho; cbn [write outputFile]; now rewrite Ro, <- app_assoc|].
        split; [now rewrite Hc|]. split; [now rewrite Hp|]. split; [now rewrite Hx|].
        intros Hd. rewrite (He Hd). cbn [write errChannel]. rewrite (Rplain Hd).
        cbn [consoleError errChannel List.length]. rewrite length_app. simpl. lia.
Qed.

(** The loop in interactive mode when every prompt is answered
    affirmatively. *)
Lemma mjs_loop_yes (body : list jsstring) :
  skipErrors cfg = false ->
  forall n w,
    Forall (fun a => affirmative (Some a) = true) (operator w) ->
    (List.length (filter (isRejected transliterate (List.length hdr) idx) body)
     <= List.length (operator w))%nat ->
    exists w',
      Mjs.forEachLine transliterate cfg body (Mjs.mkLocals true idx hdr n) w
      = (Mjs.mkLocals true idx hdr (n + N.of_nat (List.length body)), w', Next)
      /\ outputFile w' = outputFile w
           ++ map (rowWritten transliterate (List.length hdr) idx)
                (filter (fun raw => negb (isBlank raw)) body)
      /\ exitCode w' = exitCode w
      /\ outChannel w'
         = outChannel w
             ++ repeat promptLine
                  (List.length (filter (isRejected transliterate (List.length hdr) idx) body)).
Proof.
  intros Hs. induction body as [|raw body IH]; intros n w Hyes Hlen.
  - exists w. simpl. rewrite N.add_0_r, !app_nil_r. repeat split; auto.
  - cbn [Mjs.forEachLine filter] in *. unfold isRejected in Hlen at 1 |- * at 1.
    fold (isRejected transliterate) in *.
    destruct (isBlank raw) eqn:Hb.
    + rewrite (mjs_blank transliterate cfg raw (Mjs.mkLocals true idx hdr n) w eq_refl Hb).
      unfold bump. cbn [Mjs.headerProcessed Mjs.vocalizedIdx Mjs.headerCells Mjs.lineNumber].
      cbn [negb andb] in *.
      destruct (IH (n + 1) w Hyes Hlen) as (w' & E & Ho & Hx & Hc).
      exists w'. rewrite E. repeat split; auto. do 3 f_equal. cbn [List.length]. lia.
    + cbn [negb andb map] in *.
      destruct (tiberianOf transliterate (fieldOf (List.length hdr) idx raw))
        as [t|message] eqn:Ht.
      * rewrite (mjs_row transliterate cfg raw (Mjs.mkLocals true idx hdr n) w eq_refl Hb).
        cbn zeta. cbn [Mjs.headerProcessed Mjs.vocalizedIdx Mjs.headerCells Mjs.lineNumber].
        unfold fieldOf in Ht. rewrite Ht. fold (fieldOf (List.length hdr) idx raw) in Ht.
        unfold bump. cbn [Mjs.headerProcessed Mjs.vocalizedIdx Mjs.headerCells Mjs.lineNumber].
        destruct (IH (n + 1) (write (outputRow (rowCells (List.length hdr) raw) t) w)
                    Hyes Hlen) as (w' & E & Ho & Hx & Hc).
        exists w'. rewrite E, (accepted_row_written raw t Ht).
        split; [do 3 f_equal; cbn [List.length]; lia|].
        split; [rewrite Ho; cbn [write outputFile]; now rewrite <- app_assoc|].
        repeat split; auto.
      * rewrite (mjs_rejected transliterate cfg raw (Mjs.mkLocals true idx hdr n) w message
                   eq_refl Hb Ht).
        cbn zeta. rewrite Hs.
        cbn [Mjs.headerProcessed Mjs.vocalizedIdx Mjs.headerCells Mjs.lineNumber].
        set (cells := rowCells (List.length hdr) raw).
        set (l1 := bump (Mjs.mkLocals true idx hdr n)).
        destruct (report_frame transliterate cfg l1 (stripBOM raw) cells
                    (fieldOf (List.length hdr) idx raw) message w)
          as (Ro & Rx & Rp & Rc & _).
        set (w1 := Mjs.report transliterate cfg l1 (stripBOM raw) cells
                     (fieldOf (List.length hdr) idx raw) message w) in *.
        cbn [List.length] in Hlen.
        destruct (operator w) as [|a more] eqn:Eop; [simpl in Hlen; lia|].
        inversion Hyes as [|? ? Ha Hmore]; subst.
        rewrite (question_answered _ a more w1 Rp). cbn [fst snd]. rewrite Ha.
        match goal with |- context [write ?row ?w2] =>
          destruct (IH (n + 1) (write row w2) Hmore ltac:(simpl in *; lia))
            as (w' & E & Ho & Hx & Hc)
        end.
        exists w'. unfold l1, bump.
        cbn [Mjs.headerProcessed Mjs.vocalizedIdx Mjs.headerCells Mjs.lineNumber].
        rewrite E, (rejected_row_written raw message Ht). fold cells.
        split; [do 3 f_equal; cbn [List.length]; lia|].
        split; [rewrite Ho; cbn [write outputFile]; now rewrite Ro, <- app_assoc|].
        split; [rewrite Hx; cbn [write exitCode]; exact Rx|].
        rewrite Hc. cbn [write outChannel List.length repeat]. rewrite Rc, <- app_assoc.
        reflexivity.
Qed.

(** Under any policy the loop writes rows of the input, in order, and at
    most stops early. *)
Lemma mjs_loop_prefix (body : list jsstring) :
  forall n w, exists out,
    outputFile (snd (fst (Mjs.forEachLine transliterate cfg body
                            (Mjs.mkLocals true idx hdr n) w)))
    = outputFile w ++ out
    /\ isPrefix out (map (rowWritten transliterate (List.length hdr) idx)
                       (filter (fun raw => negb (isBlank raw)) body)).
Proof.
  induction body as [|raw body IH]; intros n w.
  - exists []. simpl. rewrite app_nil_r. split; [reflexivity | now exists []].
  - cbn [Mjs.forEachLine filter]. destruct (isBlank raw) eqn:Hb.
    + rewrite (mjs_blank transliterate cfg raw (Mjs.mkLocals true idx hdr n) w eq_refl Hb).
      unfold bump. cbn [Mjs.headerProcessed Mjs.vocalizedIdx Mjs.headerCells Mjs.lineNumber negb].
      apply IH.
    + cbn [negb map].
      assert (Hgo : forall t w2,
        outputFile w2 = outputFile w ->
        rowWritten transliterate (List.length hdr) idx raw
          = outputRow (rowCells (List.length hdr) raw) t ->
        exists out,
          outputFile (snd (fst (Mjs.forEachLine transliterate cfg body
             (Mjs.mkLocals true idx hdr (n + 1))
             (write (outputRow (rowCells (List.length hdr) raw) t) w2))))
          = outputFile w ++ out
          /\ isPrefix out (rowWritten transliterate (List.length hdr) idx raw
               :: map (rowWritten transliterate (List.length hdr) idx)
                    (filter (fun raw => negb (isBlank raw)) body))).
      { intros t w2 Hw2 Hrow.
        destruct (IH (n + 1) (write (outputRow (rowCells (List.length hdr) raw) t) w2))
          as (out & Ho & [rest Hrest]).
        exists (outputRow (rowCells (List.length hdr) raw) t :: out). split.
        - rewrite Ho. cbn [write outputFile]. now rewrite Hw2, <- app_assoc.
        - exists rest. rewrite Hrow, Hrest. reflexivity. }
      destruct (tiberianOf transliterate (fieldOf (List.length hdr) idx raw))
        as [t|message] eqn:Ht.
      * rewrite (mjs_row transliterate cfg raw (Mjs.mkLocals true idx hdr n) w eq_refl Hb).
        cbn zeta. cbn [Mjs.headerProcessed Mjs.vocalizedIdx Mjs.headerCells Mjs.lineNumber].
        unfold fieldOf in Ht. rewrite Ht. fold (fieldOf (List.length hdr) idx raw) in Ht.
        unfold bump. cbn [Mjs.headerProcessed Mjs.vocalizedIdx Mjs.headerCells Mjs.lineNumber].
        apply Hgo; [reflexivity | exact (accepted_row_written raw t Ht)].
      * rewrite (mjs_rejected transliterate cfg raw (Mjs.mkLocals true idx hdr n) w message
                   eq_refl Hb Ht).
        cbn zeta.
        cbn [Mjs.headerProcessed Mjs.vocalizedIdx Mjs.headerCells Mjs.lineNumber].
        set (cells := rowCells (List.length hdr) raw).
        set (l1 := bump (Mjs.mkLocals true idx hdr n)).
        destruct (report_frame transliterate cfg l1 (stripBOM raw) cells
                    (fieldOf (List.length hdr) idx raw) message w) as (Ro & _).
        set (w1 := Mjs.report transliterate cfg l1 (stripBOM raw) cells
                     (fieldOf (List.length hdr) idx raw) message w) in *.
        destruct (question_frame (promptText ++ lit " Continue? (y/N): ") w1) as (Qo & _).
        set (asked := question (promptText ++ lit " Continue? (y/N): ") w1) in *.
        unfold l1, bump.
        cbn [Mjs.headerProcessed Mjs.vocalizedIdx Mjs.headerCells Mjs.lineNumber].
        destruct (skipErrors cfg).
        -- apply Hgo; [exact Ro | exact (rejected_row_written raw message Ht)].
        -- destruct (fst asked) as [a|].
           ++ destruct (affirmative (Some a)).
              ** apply Hgo; [now rewrite Qo | exact (rejected_row_written raw message Ht)].
              ** exists []. cbn [fst snd setExitCode outputFile].
                 rewrite Qo, Ro, app_nil_r. split; [reflexivity | now eexists].
           ++ exists []. cbn [fst snd].
              rewrite Qo, Ro, app_nil_r. split; [reflexivity | now eexists].
Qed.

Lemma ts_loop_prefix (body : list jsstring) :
  forall w, exists out,
    outputFile (snd (fst (Ts.forEachLine transliterate body (Ts.mkLocals true idx hdr) w)))
    = outputFile w ++ out
    /\ isPrefix out (map (rowWritten transliterate (List.length hdr) idx)
                       (filter (fun raw => negb (isBlank raw)) body)).
Proof.
  induction body as [|raw body IH]; intros w.
  - exists []. simpl. rewrite app_nil_r. split; [reflexivity | now exists []].
  - cbn [Ts.forEachLine filter]. destruct (isBlank raw) eqn:Hb.
    + rewrite (ts_blank transliterate raw (Ts.mkLocals true idx hdr) w eq_refl Hb).
      cbn [negb]. apply IH.
    + cbn [negb map].
      rewrite (ts_row transliterate raw (Ts.mkLocals true idx hdr) w eq_refl Hb).
      cbn zeta. cbn [Ts.headerProcessed Ts.vocalizedIdx Ts.headerCells].
      destruct (tiberianOf transliterate
                  (at_index (rowCells (List.length hdr) raw) idx)) as [t|message] eqn:Ht.
      * destruct (IH (write (outputRow (rowCells (List.length hdr) raw) t) w))
          as (out & Ho & [rest Hrest]).
        exists (outputRow (rowCells (List.length hdr) raw) t :: out). split.
        -- rewrite Ho. cbn [write outputFile]. now rewrite <- app_assoc.
        -- exists rest. rewrite (accepted_row_written raw t Ht), Hrest. reflexivity.
      * exists []. cbn [fst snd]. rewrite app_nil_r. split; [reflexivity | now eexists].
Qed.

End Policies.

(** X13: in skip mode a run over a file with a good header always reaches
    the end of the input: every line that is not blank gives exactly one
    output row, in order (with an empty last cell when the library rejected
    the field), the operator is never asked, the run ends with the
    clean-completion line and status 0, and without [--debug] there is one
    diagnostic line per rejected row. *)
Theorem skip_mode_run (transliterate : jsstring -> Outcome) (cfg : Config)
    (h : jsstring) (body answers : list jsstring) :
  skipErrors cfg = true ->
  let hdr := parseCsvLine (stripBOM h) PIPE in
  let idx := indexOf hdr (lit "vocalized") in
  In (lit "vocalized") hdr ->
  let run := Mjs.main transliterate cfg (Some (h :: body)) (initialWorld answers) in
  outputFile (fst run)
  = headerOut h :: map (rowWritten transliterate (List.length hdr) idx)
                     (filter (fun raw => negb (isBlank raw)) body)
  /\ snd run = Next
  /\ exitStatus run = Some 0
  /\ outChannel (fst run) = [lit "Wrote: " ++ outputPath cfg]
  /\ operator (fst run) = answers
  /\ (debug cfg = false ->
      List.length (errChannel (fst run))
      = List.length (filter (isRejected transliterate (List.length hdr) idx) body)).
Proof.
  intros Hs hdr idx Hin run. unfold run, Mjs.main. cbn [Mjs.forEachLine].
  rewrite (mjs_header_found transliterate cfg h Mjs.initialLocals
             (initialWorld answers) eq_refl Hin).
  fold hdr. fold idx.
  destruct (mjs_loop_skip transliterate cfg hdr idx body Hs
              (Mjs.lineNumber Mjs.initialLocals + 1)
              (write (headerOut h) (initialWorld answers)))
    as (w' & E & Ho & Hc & Hp & Hx & He).
  rewrite E. unfold Mjs.finish, exitStatus. cbn [fst snd]. rewrite Hx.
  cbn [write initialWorld exitCode consoleLog outputFile outChannel operator errChannel] in *.
  rewrite Ho, Hc, Hp, ?Hx. repeat split; auto.
Qed.

Lemma skip_mode_run_witness :
  outputFile (fst (Mjs.main sampleTransliterate (sampleConfig true true)
     (Some [lit "book|vocalized"; lit "Gen|aXb"; []; lit "Exo|cd"]) (initialWorld [])))
  = [lit "book|vocalized|tiberian" ++ newline;
     lit "Gen|aXb|" ++ newline;
     lit "Exo|cd|/cd/" ++ newline].
Proof.
  destruct (skip_mode_run sampleTransliterate (sampleConfig true true)
              (lit "book|vocalized") [lit "Gen|aXb"; []; lit "Exo|cd"] [] eq_refl)
    as (H & _).
  - vm_compute. right. now left.
  - exact H.
Defined.

(** X14: in interactive mode, when every prompt is answered and every
    answer is affirmative, the run shows one prompt per rejected row and
    otherwise ends as in skip mode: the same rows are handed to the output,
    the clean-completion line is printed and the status is 0.  The
    answers are those delivered to the prompts, at least one per rejected
    row. *)
Theorem always_yes_run (transliterate : jsstring -> Outcome) (cfg : Config)
    (h : jsstring) (body answers : list jsstring) :
  skipErrors cfg = false ->
  let hdr := parseCsvLine (stripBOM h) PIPE in
  let idx := indexOf hdr (lit "vocalized") in
  let rejected := filter (isRejected transliterate (List.length hdr) idx) body in
  In (lit "vocalized") hdr ->
  Forall (fun a => affirmative (Some a) = true) answers ->
  (List.length rejected <= List.length answers)%nat ->
  let run := Mjs.main transliterate cfg (Some (h :: body)) (initialWorld answers) in
  outputFile (fst run)
  = headerOut h :: map (rowWritten transliterate (List.length hdr) idx)
                     (filter (fun raw => negb (isBlank raw)) body)
  /\ snd run = Next
  /\ exitStatus run = Some 0
  /\ outChannel (fst run)
     = repeat promptLine (List.length rejected) ++ [lit "Wrote: " ++ outputPath cfg].
Proof.
  intros Hs hdr idx rejected Hin Hyes Hlen run. unfold run, Mjs.main.
  cbn [Mjs.forEachLine].
  rewrite (mjs_header_found transliterate cfg h Mjs.initialLocals
             (initialWorld answers) eq_refl Hin).
  fold hdr. fold idx.
  destruct (mjs_loop_yes transliterate cfg hdr idx body Hs
              (Mjs.lineNumber Mjs.initialLocals + 1)
              (write (headerOut h) (initialWorld answers)) Hyes Hlen)
    as (w' & E & Ho & Hx & Hc).
  rewrite E. unfold Mjs.finish, exitStatus. cbn [fst snd]. rewrite Hx.
  cbn [write initialWorld exitCode consoleLog outputFile outChannel operator errChannel] in *.
  rewrite Ho, Hc, ?Hx. repeat split; auto.
Qed.

Lemma always_yes_run_witness :
  outputFile (fst (Mjs.main sampleTransliterate (sampleConfig false false)
     (Some [lit "book|vocalized"; lit "Gen|aXb"; []; lit "Exo|cd"])
     (initialWorld [lit " Yes "; lit "y"])))
  = [lit "book|vocalized|tiberian" ++ newline;
     lit "Gen|aXb|" ++ newline;
     lit "Exo|cd|/cd/" ++ newline].
Proof.
  destruct (always_yes_run sampleTransliterate (sampleConfig false false)
              (lit "book|vocalized") [lit "Gen|aXb"; []; lit "Exo|cd"]
              [lit " Yes "; lit "y"] eq_refl)
    as (H & _).
  - vm_compute. right. now left.
  - repeat constructor.
  - vm_compute. lia.
  - exact H.
Defined.

(** X15: whatever the policy and the operator's answers, and in the plain
    script too, the output file is the start of the full output: the header
    line followed by the rows of the lines that are not blank, in the order
    of the input.  A run that stops early only cuts that list short. *)
Theorem output_is_prefix (transliterate : jsstring -> Outcome) (cfg : Config)
    (h : jsstring) (body answers : list jsstring) :
  let hdr := parseCsvLine (stripBOM h) PIPE in
  let idx := indexOf hdr (lit "vocalized") in
  In (lit "vocalized") hdr ->
  let full := headerOut h :: map (rowWritten transliterate (List.length hdr) idx)
                               (filter (fun raw => negb (isBlank raw)) body) in
  isPrefix (outputFile (fst (Mjs.main transliterate cfg (Some (h :: body))
                               (initialWorld answers)))) full
  /\ isPrefix (outputFile (fst (Ts.main transliterate cfg (Some (h :: body))
                                  (initialWorld answers)))) full.
Proof.
  intros hdr idx Hin full. split.
  - unfold Mjs.main. cbn [Mjs.forEachLine].
    rewrite (mjs_header_found transliterate cfg h Mjs.initialLocals
               (initialWorld answers) eq_refl Hin).
    fold hdr. fold idx.
    destruct (mjs_loop_prefix transliterate cfg hdr idx body
                (Mjs.lineNumber Mjs.initialLocals + 1)
                (write (headerOut h) (initialWorld answers)))
      as (out & Ho & [rest Hrest]).
    destruct (Mjs.forEachLine transliterate cfg body _ _) as [[l' w'] c].
    cbn [fst snd] in Ho.
    assert (Hf : outputFile (Mjs.finish cfg w') = outputFile w').
    { unfold Mjs.finish. destruct (exitCode w') as [k|]; [destruct (negb (k =? 0))|];
        reflexivity. }
    exists rest. unfold full. rewrite Hrest.
    destruct c; cbn [fst]; rewrite ?Hf; cbn [consoleError outputFile]; now rewrite Ho.
  - unfold Ts.main. cbn [Ts.forEachLine].
    rewrite (ts_header_found transliterate h Ts.initialLocals
               (initialWorld answers) eq_refl Hin).
    fold hdr. fold idx.
    destruct (ts_loop_prefix transliterate hdr idx body
                (write (headerOut h) (initialWorld answers)))
      as (out & Ho & [rest Hrest]).
    destruct (Ts.forEachLine transliterate body _ _) as [[l' w'] c].
    cbn [fst snd] in Ho.
    exists rest. unfold full. rewrite Hrest.
    destruct c; cbn [fst consoleLog outputFile]; now rewrite Ho.
Qed.

Lemma output_is_prefix_witness :
  isPrefix (outputFile (fst (Mjs.main sampleTransliterate (sampleConfig false false)
              (Some [lit "vocalized"; lit "ab"; lit "X"; lit "cd"]) (initialWorld []))))
    [lit "vocalized|tiberian" ++ newline; lit "ab|/ab/" ++ newline;
     lit "X|" ++ newline; lit "cd|/cd/" ++ newline].
Proof.
  destruct (output_is_prefix sampleTransliterate (sampleConfig false false)
              (lit "vocalized") [lit "ab"; lit "X"; lit "cd"] []) as [H _].
  - now left.
  - exact H.
Defined.

Lemma writeAll_exitCode (chunks : list jsstring) (w : World) :
  exitCode (writeAll chunks w) = exitCode w.
Proof.
  revert w. induction chunks as [|c chunks IH]; intros w; [reflexivity|].
  rewrite writeAll_cons, IH. reflexivity.
Qed.

(** X16: the plain script stops at the first rejected row: the header and
    the rows before it have been handed to the output stream and nothing
    after them, the stream is not ended, no completion line is printed,
    and the error of the library leaves [main] uncaught with the library's
    own message.  The process then dies with writes still pending, so the
    file holds some beginning of the text handed over, and nothing of the
    rejected row or of a later one. *)
Theorem plain_script_stops_at_rejection (transliterate : jsstring -> Outcome)
    (cfg : Config) (h : jsstring) (pre : list jsstring) (raw : jsstring)
    (post answers : list jsstring) (message : jsstring) :
  let hdr := parseCsvLine (stripBOM h) PIPE in
  let idx := indexOf hdr (lit "vocalized") in
  In (lit "vocalized") hdr ->
  Forall (accepted transliterate (List.length hdr) idx) pre ->
  isBlank raw = false ->
  tiberianOf transliterate (fieldOf (List.length hdr) idx raw) = Throws message ->
  let run := Ts.main transliterate cfg (Some (h :: pre ++ raw :: post))
               (initialWorld answers) in
  let handed := headerOut h :: map (rowWritten transliterate (List.length hdr) idx)
                                 (filter (fun r => negb (isBlank r)) pre) in
  run = (writeAll handed (initialWorld answers), Thrown message)
  /\ forall text, possibleFile run text -> exists lost, List.concat handed = text ++ lost.
Proof.
  intros hdr idx Hin Hpre Hb Ht run handed.
  assert (E : run = (writeAll handed (initialWorld answers), Thrown message)).
  { unfold run, Ts.main. cbn [Ts.forEachLine].
    rewrite (ts_header_found transliterate h Ts.initialLocals
               (initialWorld answers) eq_refl Hin).
    fold hdr. fold idx.
    rewrite ts_loop_app, (ts_loop_accepted transliterate hdr idx pre Hpre).
    cbn [Ts.forEachLine].
    rewrite (ts_row transliterate raw (Ts.mkLocals true idx hdr) _ eq_refl Hb).
    cbn zeta. cbn [Ts.headerProcessed Ts.vocalizedIdx Ts.headerCells].
    unfold fieldOf in Ht. rewrite Ht. unfold handed. now rewrite writeAll_cons. }
  split; [exact E|]. intros text. rewrite E. unfold possibleFile. cbn [fst snd].
  rewrite writeAll_output. cbn [initialWorld outputFile app]. auto.
Qed.

Lemma plain_script_stops_at_rejection_witness :
  Ts.main sampleTransliterate (sampleConfig false false)
    (Some (lit "vocalized" :: [lit "ab"; []] ++ lit "X" :: [lit "cd"])) (initialWorld [])
  = (writeAll [lit "vocalized|tiberian" ++ newline; lit "ab|/ab/" ++ newline]
       (initialWorld []),
     Thrown (lit "unsupported character")).
Proof.
  destruct (plain_script_stops_at_rejection sampleTransliterate (sampleConfig false false)
           (lit "vocalized") [lit "ab"; []] (lit "X") [lit "cd"] []
           (lit "unsupported character")) as [E _].
  - now left.
  - constructor; [right; now exists (lit "/ab/")|]. constructor; [now left | constructor].
  - reflexivity.
  - reflexivity.
  - exact E.
Defined.

(** X17: started with no exit code set, the script with the error policy
    ends with status 0 or 1 and nothing else.  It is 1 when the input file
    is missing, when the header lacks the column, and when the operator
    answered a prompt with a refusal; it is 0 when the loop ran to the end
    of the input, and also when the run was left at a prompt that is never
    answered. *)
Theorem exit_status_cases (transliterate : jsstring -> Outcome) (cfg : Config)
    (file : option (list jsstring)) (w0 : World) :
  exitCode w0 = None ->
  exitStatus (Mjs.main transliterate cfg file w0)
  = Some (match file with
          | None => 1
          | Some lines =>
              match snd (Mjs.forEachLine transliterate cfg lines Mjs.initialLocals w0) with
              | Next | Stalled => 0
              | Break | ExitNow _ | Thrown _ => 1
              end
          end).
Proof.
  intros Hx. destruct file as [lines|]; cbn [Mjs.main]; [|reflexivity].
  pose proof (mjs_loop_inv transliterate cfg lines Mjs.initialLocals w0) as H.
  cbn zeta in H.
  assert (Hf : forall w, exitCode (Mjs.finish cfg w) = exitCode w).
  { intros w. unfold Mjs.finish.
    destruct (exitCode w) as [k|] eqn:E; [destruct (negb (k =? 0))|]; simpl; now rewrite ?E. }
  destruct (Mjs.forEachLine transliterate cfg lines Mjs.initialLocals w0) as [[l w] c].
  cbn [fst snd] in H. destruct H as [_ H]. unfold exitStatus.
  destruct c; cbn [fst snd].
  - destruct H as (He & _). now rewrite Hf, He, Hx.
  - destruct H as (He & _). now rewrite Hf, He.
  - now destruct H as (-> & _).
  - contradiction.
  - destruct H as (He & _). now rewrite He, Hx.
Qed.

Lemma exit_status_cases_witness :
  exitStatus (Mjs.main sampleTransliterate (sampleConfig false false)
                (Some [lit "vocalized"; lit "X"]) (initialWorld [lit "n"])) = Some 1
  /\ exitStatus (Mjs.main sampleTransliterate (sampleConfig false false)
                   (Some [lit "vocalized"; lit "X"]) (initialWorld [])) = Some 0.
Proof.
  split.
  - exact (exit_status_cases sampleTransliterate (sampleConfig false false)
             (Some [lit "vocalized"; lit "X"]) (initialWorld [lit "n"]) eq_refl).
  - exact (exit_status_cases sampleTransliterate (sampleConfig false false)
             (Some [lit "vocalized"; lit "X"]) (initialWorld []) eq_refl).
Defined.

(** X18: on a file with a good header and no rejected row the two scripts
    cannot be told apart: they leave the same output file and the same
    channels and end the same way, whatever the flags. *)
Theorem scripts_agree_without_rejection (transliterate : jsstring -> Outcome)
    (cfg : Config) (h : jsstring) (body answers : list jsstring) :
  let hdr := parseCsvLine (stripBOM h) PIPE in
  let idx := indexOf hdr (lit "vocalized") in
  In (lit "vocalized") hdr ->
  Forall (accepted transliterate (List.length hdr) idx) body ->
  Mjs.main transliterate cfg (Some (h :: body)) (initialWorld answers)
  = Ts.main transliterate cfg (Some (h :: body)) (initialWorld answers).
Proof.
  intros hdr idx Hin Hall. unfold Mjs.main, Ts.main.
  cbn [Mjs.forEachLine Ts.forEachLine].
  rewrite (mjs_header_found transliterate cfg h Mjs.initialLocals
             (initialWorld answers) eq_refl Hin).
  rewrite (ts_header_found transliterate h Ts.initialLocals
             (initialWorld answers) eq_refl Hin).
  fold hdr. fold idx.
  rewrite (mjs_loop_accepted transliterate cfg hdr idx body Hall).
  rewrite (ts_loop_accepted transliterate hdr idx body Hall).
  unfold Mjs.finish. rewrite writeAll_exitCode. reflexivity.
Qed.

Lemma scripts_agree_without_rejection_witness :
  Mjs.main sampleTransliterate (sampleConfig true false)
    (Some [lit "book|vocalized"; lit "Gen|ab"; []; lit "Exo"]) (initialWorld [])
  = Ts.main sampleTransliterate (sampleConfig true false)
      (Some [lit "book|vocalized"; lit "Gen|ab"; []; lit "Exo"]) (initialWorld []).
Proof.
  apply (scripts_agree_without_rejection sampleTransliterate (sampleConfig true false)
           (lit "book|vocalized") [lit "Gen|ab"; []; lit "Exo"] []).
  - vm_compute. right. now left.
  - constructor; [right; now exists (lit "/ab/")|].
    constructor; [now left|]. constructor; [right; now exists [] | constructor].
Defined.
